(** * vocab.py: pronunciation-audio downloader

    A shallow embedding of [src/vocab.py] and the properties of its two
    steps (token resolver, audio fetcher) and of its entry point.

    - Python [str] values are lists of Unicode code points ([Z]);
      [bytes] values are lists of byte values ([Z], 0..255).
    - The three regular expressions of the program are values of a small
      regex syntax, run by a backtracking matcher with the semantics of
      Python's [re] on that fragment (greedy [+], leftmost match).
    - [requests], [pathlib], [open] and [print] are effects on an explicit
      world: a table of replies for the network, a directory tree for the
      file system, and a log of every effect in program order.
    - Python exceptions are the [Raise] results of a state-and-error monad;
      [try ... except RequestException] is [try_except_RequestException]. *)

From Stdlib Require Import ZArith Lia List Bool String Ascii.
From stdpp Require Import base decidable list.
Import ListNotations.

Local Open Scope Z_scope.

(** ** Strings *)

(** A Python [str]: the sequence of its code points. *)
Abbreviation str := (list Z).
(** A Python [bytes]. *)
Abbreviation bytes := (list Z).

(** The code points of an ASCII literal. *)
Definition str_of (s : string) : str :=
  List.map (fun a => Z.of_N (N_of_ascii a)) (list_ascii_of_string s).

Definition QUOTATION_MARK : Z := 34.
Definition HYPHEN : Z := 45.
Definition SLASH : Z := 47.
Definition UNDERSCORE : Z := 95.

Definition in_range (lo hi c : Z) : bool := (lo <=? c) && (c <=? hi).

Definition is_upper (c : Z) : bool := in_range 65 90 c.
Definition is_lower (c : Z) : bool := in_range 97 122 c.
Definition is_digit (c : Z) : bool := in_range 48 57 c.
Definition ascii_alnum (c : Z) : bool := is_upper c || is_lower c || is_digit c.

(** The Unicode character database of the interpreter is not part of the
    repository, and its alphanumeric table grows with every Unicode
    version: what it says of the code points from U+0080 on is a parameter
    of the development.  Below U+0080 the table is fixed. *)
Class UnicodeData := { unicode_isalnum : Z -> bool }.

(** [Py_UNICODE_ISALNUM]: what [str.isalnum] and the regex class [\w]
    test (letters, decimals, digits and numerics). *)
Definition Py_UNICODE_ISALNUM `{UnicodeData} (c : Z) : bool :=
  if c <? 128 then ascii_alnum c else unicode_isalnum c.

(** [Py_UNICODE_ISSPACE]: what [str.strip], [str.isspace] and the regex
    class [\s] test. *)
Definition Py_UNICODE_ISSPACE (c : Z) : bool :=
  in_range 0x09 0x0D c || in_range 0x1C 0x20 c || (c =? 0x85) || (c =? 0xA0)
  || (c =? 0x1680) || in_range 0x2000 0x200A c || (c =? 0x2028)
  || (c =? 0x2029) || (c =? 0x202F) || (c =? 0x205F) || (c =? 0x3000).

(** The text without its leading characters of a set: [s.lstrip(chars)],
    and what a greedy set of a regular expression leaves. *)
Fixpoint drop_run (cs : Z -> bool) (s : str) : str :=
  match s with
  | c :: s' => if cs c then drop_run cs s' else s
  | [] => []
  end.

(** [str.strip()] with no argument strips whitespace at both ends. *)
Definition lstrip (s : str) : str := drop_run Py_UNICODE_ISSPACE s.

Definition rstrip (s : str) : str := rev (lstrip (rev s)).

Definition strip (s : str) : str := rstrip (lstrip s).

(** ** Regular expressions

    The fragment of Python's [re] syntax that the program uses: literal
    characters, bracketed sets (possibly complemented) of characters,
    ranges, [\w] and [\s], one-or-more repetition of a set, and one
    capturing group. *)

Inductive set_item :=
| SChar (c : Z)            (* a character *)
| SRange (lo hi : Z)       (* lo-hi *)
| SWord                    (* \w *)
| SSpace.                  (* \s *)

Inductive re_item :=
| Lit (c : Z)                                   (* c *)
| SetOf (negated : bool) (items : list set_item) (* [...] or [^...] *)
| SetPlus (negated : bool) (items : list set_item) (* [...]+ *)
| GroupOpen                                     (* ( *)
| GroupClose.                                   (* ) *)

Abbreviation regex := (list re_item).

Section Regex.
Context `{UnicodeData}.

Definition set_item_matches (c : Z) (i : set_item) : bool :=
  match i with
  | SChar x => c =? x
  | SRange lo hi => in_range lo hi c
  | SWord => Py_UNICODE_ISALNUM c || (c =? UNDERSCORE)
  | SSpace => Py_UNICODE_ISSPACE c
  end.

Definition set_matches (negated : bool) (items : list set_item) (c : Z) : bool :=
  xorb negated (existsb (set_item_matches c) items).

(** One or more characters of the set, as many as possible, giving
    characters back one at a time while the rest of the pattern, [k],
    fails. *)
Fixpoint greedy {A} (cs : Z -> bool) (k : str -> option A) (s : str) : option A :=
  match s with
  | c :: s' =>
      if cs c then
        match greedy cs k s' with
        | Some r => Some r
        | None => k s'
        end
      else None
  | [] => None
  end.

(** The positions of group 1: the text from its opening and from its
    closing parenthesis on. *)
Definition captures : Type := option str * option str.

(** [rmatch p g s]: match the pattern at the start of [s]; the result is
    the text after the match and the captures. *)
Fixpoint rmatch (p : regex) (g : captures) (s : str) : option (str * captures) :=
  match p with
  | [] => Some (s, g)
  | Lit c :: p' =>
      match s with
      | x :: s' => if x =? c then rmatch p' g s' else None
      | [] => None
      end
  | SetOf n items :: p' =>
      match s with
      | x :: s' => if set_matches n items x then rmatch p' g s' else None
      | [] => None
      end
  | SetPlus n items :: p' => greedy (set_matches n items) (rmatch p' g) s
  | GroupOpen :: p' => rmatch p' (Some s, snd g) s
  | GroupClose :: p' => rmatch p' (fst g, Some s) s
  end.

(** A match object: where the match starts and ends (as suffixes of the
    subject) and the captures. *)
Record Match := { m_start : str; m_end : str; m_caps : captures }.

(** [match.group(1)]. *)
Definition group1 (m : Match) : str :=
  match m_caps m with
  | (Some o, Some c) => take (length o - length c)%nat o
  | _ => []
  end.

(** [re.search(pattern, string)]: the leftmost match. *)
Fixpoint re_search (p : regex) (s : str) : option Match :=
  match rmatch p (None, None) s with
  | Some (rest, g) => Some {| m_start := s; m_end := rest; m_caps := g |}
  | None =>
      match s with
      | [] => None
      | _ :: s' => re_search p s'
      end
  end.

(** [re.sub(pattern, repl, string)] for a replacement without group
    references: left to right, every match is replaced and the scan goes
    on after it; a character where no match starts is copied.  [skip]
    counts the characters of the current match still to be dropped. *)
Fixpoint re_sub_from (p : regex) (repl : str) (skip : nat) (s : str) : str :=
  match skip, s with
  | S n, _ :: s' => re_sub_from p repl n s'
  | S _, [] => []
  | O, [] =>
      match rmatch p (None, None) [] with
      | Some _ => repl
      | None => []
      end
  | O, c :: s' =>
      match rmatch p (None, None) s with
      | Some (rest, _) =>
          match (length s - length rest)%nat with
          | O => repl ++ c :: re_sub_from p repl 0 s'
          | S n => repl ++ re_sub_from p repl n s'
          end
      | None => c :: re_sub_from p repl 0 s'
      end
  end.

Definition re_sub (p : regex) (repl s : str) : str := re_sub_from p repl 0 s.

(** ** The patterns of the program *)

(** [r'[^\w\s-]'] *)
Definition special_characters : regex :=
  [SetOf true [SWord; SSpace; SChar HYPHEN]].

(** [r'[-\s]+'] *)
Definition separators : regex :=
  [SetPlus false [SChar HYPHEN; SSpace]].

(** [r'"([A-Z]/[A-Z0-9]+)"'] *)
Definition pattern : regex :=
  [Lit QUOTATION_MARK; GroupOpen;
   SetOf false [SRange 65 90]; Lit SLASH;
   SetPlus false [SRange 65 90; SRange 48 57];
   GroupClose; Lit QUOTATION_MARK].

(** ** The file name of [download_audio] (lines 88-90) *)

Definition safe_filename (query : str) : str :=
  let safe_filename := re_sub special_characters [] (strip query) in
  re_sub separators (str_of "_") safe_filename.

Definition filename (query : str) : str :=
  safe_filename query ++ str_of ".mp3".

End Regex.

(** CPython's table on the Latin-1 Supplement (U+0080..U+00FF), on which
    all Unicode versions agree; it says nothing of the code points from
    U+0100 on, and serves to evaluate examples that stay below. *)
Definition latin1 : UnicodeData :=
  {| unicode_isalnum c :=
       (c =? 0xAA) || (c =? 0xB2) || (c =? 0xB3) || (c =? 0xB5) || (c =? 0xB9)
       || (c =? 0xBA) || in_range 0xBC 0xBE c || in_range 0xC0 0xD6 c
       || in_range 0xD8 0xF6 c || in_range 0xF8 0xFF c |}.


(** ** Percent-encoding: [urllib.parse.quote] *)

(** [str.encode('utf-8', 'strict')] of one code point; [None] is
    [UnicodeEncodeError] (a surrogate, U+D800..U+DFFF, such as the ones
    that stand for undecodable bytes of the command line). *)
Definition utf8_encode_char (c : Z) : option bytes :=
  if c <? 0 then None
  else if c <? 0x80 then Some [c]
  else if c <? 0x800 then
    Some [Z.lor 0xC0 (Z.shiftr c 6); Z.lor 0x80 (Z.land c 0x3F)]
  else if c <? 0x10000 then
    if in_range 0xD800 0xDFFF c then None
    else Some [Z.lor 0xE0 (Z.shiftr c 12);
               Z.lor 0x80 (Z.land (Z.shiftr c 6) 0x3F);
               Z.lor 0x80 (Z.land c 0x3F)]
  else if c <? 0x110000 then
    Some [Z.lor 0xF0 (Z.shiftr c 18);
          Z.lor 0x80 (Z.land (Z.shiftr c 12) 0x3F);
          Z.lor 0x80 (Z.land (Z.shiftr c 6) 0x3F);
          Z.lor 0x80 (Z.land c 0x3F)]
  else None.

Fixpoint utf8_encode (s : str) : option bytes :=
  match s with
  | [] => Some []
  | c :: s' =>
      match utf8_encode_char c, utf8_encode s' with
      | Some b, Some bs => Some (b ++ bs)
      | _, _ => None
      end
  end.

(** [_ALWAYS_SAFE]: letters, digits and [_.-~]. *)
Definition always_safe (b : Z) : bool :=
  ascii_alnum b || (b =? 95) || (b =? 46) || (b =? 45) || (b =? 126).

Definition hex_digit (n : Z) : Z := if n <? 10 then 48 + n else 55 + n.

(** One byte of [quote_from_bytes] with [safe='/']: kept, or [%XX]. *)
Definition quote_byte (b : Z) : str :=
  if always_safe b || (b =? SLASH) then [b]
  else [37; hex_digit (Z.shiftr b 4); hex_digit (Z.land b 0xF)].

(** [quote(string)]; [None] is the [UnicodeEncodeError] of the encoding. *)
Definition quote (s : str) : option str :=
  match utf8_encode s with
  | Some bs => Some (concat (List.map quote_byte bs))
  | None => None
  end.

(** ** Paths: [pathlib.PurePosixPath] *)

(** A path after parsing: its root ([""], ["/"] or ["//"]) and its
    segments, from which empty segments and ["."] are gone. *)
Record Path := { root : str; parts : list str }.

Definition DOT : str := [46].
Definition DOTDOT : str := [46; 46].

(** [rel.split('/')] *)
Fixpoint split_slash (s : str) : list str :=
  match s with
  | [] => [[]]
  | c :: s' =>
      if c =? SLASH then [] :: split_slash s'
      else match split_slash s' with
           | seg :: segs => (c :: seg) :: segs
           | [] => [[c]]
           end
  end.

(** The root of a path text and what follows it: exactly two leading
    slashes are a root of their own, any other number is ["/"].
<<
        if part and part[0] == sep:
            stripped_part = part.lstrip(sep)
            if len(part) - len(stripped_part) == 2:
                return '', sep * 2, stripped_part
            else:
                return '', sep, stripped_part
        else:
            return '', '', part
>> *)
Definition splitroot (part : str) : str * str :=
  match part with
  | c :: _ =>
      if c =? SLASH then
        let stripped_part := drop_run (fun c => c =? SLASH) part in
        if (length part - length stripped_part =? 2)%nat
        then ([SLASH; SLASH], stripped_part)
        else ([SLASH], stripped_part)
      else ([], part)
  | [] => ([], part)
  end.

Definition is_segment (x : str) : bool :=
  negb (bool_decide (x = [])) && negb (bool_decide (x = DOT)).

(** [Path(text)] *)
Definition Path_of (text : str) : Path :=
  let '(r, rel) := splitroot text in
  {| root := r; parts := List.filter is_segment (split_slash rel) |}.

(** [self / key]: a rooted key replaces the path. *)
Definition Path_div (self : Path) (key : str) : Path :=
  let k := Path_of key in
  match root k with
  | [] => {| root := root self; parts := parts self ++ parts k |}
  | _ => k
  end.

(** [self.parent]: a path without segments is its own parent. *)
Definition Path_parent (self : Path) : Path :=
  {| root := root self; parts := removelast (parts self) |}.

(** ** The world *)

(** A place in the directory tree: the names from the root down. *)
Abbreviation loc := (list str).

Inductive node := Dir | File (content : bytes).

Inductive errno := ENOENT | ENOTDIR | EEXIST | EISDIR | EACCES.

(** A call of [requests.get]; [headers = None] is the call without
    [headers=], which sends the library's defaults. *)
Record request := {
  url : str;
  timeout : Z;
  headers : option (list (str * str)) }.

(** A response: its status code, decoded text and raw payload. *)
Record Response := {
  status_code : Z;
  text : str;
  content : bytes }.

(** The subclasses of [requests.exceptions.RequestException] that reach
    the program: a transport failure raised by [requests.get], and the
    [HTTPError] of [raise_for_status]. *)
Inductive RequestException :=
| ConnectionError
| HTTPError (status : Z).

(** The lines the program prints, by their f-strings. *)
Inductive message :=
| NoAudioTokenFound (query : str)              (* No audio token found for '{query}' *)
| ErrorFetchingPage (query : str) (e : RequestException)
                                                (* Error fetching page for '{query}': {e} *)
| DownloadingAudio (query : str)               (* Downloading audio for '{query}'... *)
| SuccessfullySaved (output_path : Path)       (* Successfully saved: {output_path} *)
| ErrorDownloadingAudio (e : RequestException) (* Error downloading audio: {e} *)
| FoundAudioToken (token : str)                (* Found audio token: {token} *)
| Done.                                        (* Done! *)

(** Every effect of a run, in program order. *)
Inductive event :=
| EGet (r : request)                  (* requests.get(...) *)
| EPrint (m : message)                (* print(...) *)
| EMkdir (p : Path)                   (* p.mkdir(parents=True, exist_ok=True) *)
| EOpen (p : Path)                    (* open(p, 'wb') *)
| EWrite (p : Path) (data : bytes).   (* f.write(data) *)

(** A directory tree: what is at each place, if anything.  The root
    always exists and has no entry of its own. *)
Definition tree : Type := loc -> option node.

Definition tree_set (t : tree) (l : loc) (n : node) : tree :=
  fun l' => if bool_decide (l' = l) then Some n else t l'.

(** The tree with the listed entries (the first entry of a place wins). *)
Fixpoint tree_of (entries : list (loc * node)) : tree :=
  match entries with
  | [] => fun _ => None
  | (l, n) :: rest => tree_set (tree_of rest) l n
  end.

(** The world a run acts on.  [net] answers a request with a response,
    or with [None] when none arrives (DNS, connection, timeout).  The
    directory tree [fs] is an idealised POSIX one, without symbolic
    links; [refused] marks the places where the system refuses to create
    or write an entry (permissions, quota, a name too long).  The
    standard output takes every line: [print] adds to the log and raises
    nothing. *)
Record world := {
  net : request -> option Response;
  cwd : loc;
  fs : tree;
  refused : loc -> bool;
  log : list event }.

Definition set_fs (w : world) (fs' : tree) : world :=
  {| net := net w; cwd := cwd w; fs := fs'; refused := refused w; log := log w |}.

Definition add_event (e : event) (w : world) : world :=
  {| net := net w; cwd := cwd w; fs := fs w; refused := refused w;
     log := log w ++ [e] |}.

(** ** Exceptions and the monad of the program *)

Inductive exn :=
| UnicodeEncodeError
| RequestError (e : RequestException)
| OSError (e : errno)
| SystemExit (code : Z).

Inductive result (A : Type) :=
| Ret (a : A)
| Raise (e : exn).
Arguments Ret {A} a.
Arguments Raise {A} e.

Definition M (A : Type) : Type := world -> result A * world.

Definition ret {A} (a : A) : M A := fun w => (Ret a, w).

Definition raise {A} (e : exn) : M A := fun w => (Raise e, w).

Definition bind {A B} (m : M A) (k : A -> M B) : M B :=
  fun w =>
    match m w with
    | (Ret a, w') => k a w'
    | (Raise e, w') => (Raise e, w')
    end.

Notation "x <- m ;; k" := (bind m (fun x => k))
  (at level 100, m at next level, right associativity).
Notation "m ;;; k" := (bind m (fun _ => k))
  (at level 100, right associativity).

(** [try: body except requests.exceptions.RequestException as e: handler] *)
Definition try_except_RequestException {A}
    (body : M A) (handler : RequestException -> M A) : M A :=
  fun w =>
    match body w with
    | (Raise (RequestError e), w') => handler e w'
    | r => r
    end.

Definition emit (e : event) : M unit := fun w => (Ret tt, add_event e w).

Definition print (m : message) : M unit := emit (EPrint m).

(** ** The file system calls *)

Inductive os_result (A : Type) :=
| Ok (a : A)
| Err (e : errno).
Arguments Ok {A} a.
Arguments Err {A} e.

(** Where the resolution of a path starts. *)
Definition start (w : world) (p : Path) : loc :=
  match root p with
  | [] => cwd w
  | _ => []
  end.

(** The system's walk down a list of segments, each of which must be a
    directory; [".."] steps to the parent (the root is its own). *)
Fixpoint walk (t : tree) (cur : loc) (segs : list str) : os_result loc :=
  match segs with
  | [] => Ok cur
  | s :: rest =>
      if bool_decide (s = DOTDOT) then walk t (removelast cur) rest
      else match t (cur ++ [s]) with
           | Some Dir => walk t (cur ++ [s]) rest
           | Some (File _) => Err ENOTDIR
           | None => Err ENOENT
           end
  end.

Definition unsnoc {A} (l : list A) : option (list A * A) :=
  match rev l with
  | [] => None
  | x :: r => Some (rev r, x)
  end.

(** [os.mkdir(p)] *)
Definition os_mkdir (w : world) (p : Path) : os_result tree :=
  match unsnoc (parts p) with
  | None => Err EEXIST
  | Some (init, name) =>
      match walk (fs w) (start w p) init with
      | Err e => Err e
      | Ok d =>
          if bool_decide (name = DOTDOT) then Err EEXIST
          else match fs w (d ++ [name]) with
               | Some _ => Err EEXIST
               | None =>
                   if refused w (d ++ [name]) then Err EACCES
                   else Ok (tree_set (fs w) (d ++ [name]) Dir)
               end
      end
  end.

(** [p.is_dir()] *)
Definition is_dir (w : world) (p : Path) : bool :=
  match walk (fs w) (start w p) (parts p) with
  | Ok _ => true
  | Err _ => false
  end.

(** [open(p, 'wb')]: the file is created, or emptied; the result is the
    place of the open file. *)
Definition os_open_wb (w : world) (p : Path) : os_result (loc * tree) :=
  match unsnoc (parts p) with
  | None => Err EISDIR
  | Some (init, name) =>
      match walk (fs w) (start w p) init with
      | Err e => Err e
      | Ok d =>
          if bool_decide (name = DOTDOT) then Err EISDIR
          else match fs w (d ++ [name]) with
               | Some Dir => Err EISDIR
               | _ =>
                   if refused w (d ++ [name]) then Err EACCES
                   else Ok (d ++ [name], tree_set (fs w) (d ++ [name]) (File []))
               end
      end
  end.

(** [self.mkdir(parents=False, exist_ok=exist_ok)] *)
Definition mkdir_no_parents (exist_ok : bool) (self : Path) : M unit :=
  fun w =>
    match os_mkdir w self with
    | Ok t => (Ret tt, set_fs w t)
    | Err ENOENT => (Raise (OSError ENOENT), w)
    | Err e =>
        if exist_ok && is_dir w self then (Ret tt, w)
        else (Raise (OSError e), w)
    end.

(** [self.mkdir(parents=True, exist_ok=exist_ok)], by recursion on the
    segments of [self] from the last one up:
<<
        try:
            os.mkdir(self, mode)
        except FileNotFoundError:
            if not parents or self.parent == self:
                raise
            self.parent.mkdir(parents=True, exist_ok=True)
            self.mkdir(mode, parents=False, exist_ok=exist_ok)
        except OSError:
            if not exist_ok or not self.is_dir():
                raise
>> *)
Fixpoint mkdir_parents (exist_ok : bool) (r : str) (rev_parts : list str) : M unit :=
  let self := {| root := r; parts := rev rev_parts |} in
  fun w =>
    match os_mkdir w self with
    | Ok t => (Ret tt, set_fs w t)
    | Err ENOENT =>
        match rev_parts with
        | [] => (Raise (OSError ENOENT), w)
        | _ :: up =>
            (mkdir_parents true r up ;;; mkdir_no_parents exist_ok self) w
        end
    | Err e =>
        if exist_ok && is_dir w self then (Ret tt, w)
        else (Raise (OSError e), w)
    end.

(** [self.mkdir(parents=parents, exist_ok=exist_ok)] *)
Definition Path_mkdir (self : Path) (parents exist_ok : bool) : M unit :=
  emit (EMkdir self) ;;;
  if parents then mkdir_parents exist_ok (root self) (rev (parts self))
  else mkdir_no_parents exist_ok self.

(** [open(p, 'wb')] *)
Definition open_wb (p : Path) : M loc :=
  emit (EOpen p) ;;;
  fun w =>
    match os_open_wb w p with
    | Ok (f, t) => (Ret f, set_fs w t)
    | Err e => (Raise (OSError e), w)
    end.

(** [f.write(data)] on the file opened at [f] under the name [p]. *)
Definition write (p : Path) (f : loc) (data : bytes) : M unit :=
  emit (EWrite p data) ;;;
  fun w => (Ret tt, set_fs w (tree_set (fs w) f (File data))).

(** ** The network calls *)

(** [requests.get(url, timeout=..., headers=...)] *)
Definition requests_get (u : str) (t : Z) (h : option (list (str * str))) : M Response :=
  let r := {| url := u; timeout := t; headers := h |} in
  emit (EGet r) ;;;
  fun w =>
    match net w r with
    | Some response => (Ret response, w)
    | None => (Raise (RequestError ConnectionError), w)
    end.

(** [response.raise_for_status()]: the statuses 400..599 raise. *)
Definition raise_for_status (response : Response) : M unit :=
  if (400 <=? status_code response) && (status_code response <? 600)
  then raise (RequestError (HTTPError (status_code response)))
  else ret tt.

(** [sys.exit(code)] *)
Definition sys_exit {A} (code : Z) : M A := raise (SystemExit code).

(** ** The program *)

(** [sep.join(pieces)]; the header values that hold quotation marks are
    written as their pieces between the marks. *)
Fixpoint join (sep : str) (pieces : list str) : str :=
  match pieces with
  | [] => []
  | [p] => p
  | p :: rest => p ++ sep ++ join sep rest
  end.

Definition HEADERS : list (str * str) :=
  [ (str_of "User-Agent",
     str_of "Mozilla/5.0 (Macintosh; Intel Mac OS X 10_15_7) AppleWebKit/537.36 (KHTML, like Gecko) Chrome/137.0.0.0 Safari/537.36");
    (str_of "Accept",
     str_of "text/html,application/xhtml+xml,application/xml;q=0.9,image/avif,image/webp,image/apng,*/*;q=0.8,application/signed-exchange;v=b3;q=0.7");
    (str_of "Accept-Language", str_of "en-US,en;q=0.9");
    (str_of "Cache-Control", str_of "max-age=0");
    (str_of "Sec-Ch-Ua",
     join [QUOTATION_MARK]
       [[]; str_of "Google Chrome"; str_of ";v="; str_of "137"; str_of ", ";
        str_of "Chromium"; str_of ";v="; str_of "137"; str_of ", ";
        str_of "Not/A)Brand"; str_of ";v="; str_of "24"; []]);
    (str_of "Sec-Ch-Ua-Mobile", str_of "?0");
    (str_of "Sec-Ch-Ua-Platform",
     join [QUOTATION_MARK] [[]; str_of "macOS"; []]);
    (str_of "Sec-Fetch-Dest", str_of "document");
    (str_of "Sec-Fetch-Mode", str_of "navigate");
    (str_of "Sec-Fetch-Site", str_of "none");
    (str_of "Sec-Fetch-User", str_of "?1");
    (str_of "Upgrade-Insecure-Requests", str_of "1");
    (str_of "Connection", str_of "keep-alive") ].

Definition DICTIONARY_URL : str := str_of "https://www.vocabulary.com/dictionary/".
Definition AUDIO_URL : str := str_of "https://audio.vocabulary.com/1.0/us/".

Section Program.
Context `{UnicodeData}.

(** [get_audio_token(query)] (lines 39-70); the result is the token, or
    [None]. *)
Definition get_audio_token (query : str) : M (option str) :=
  match quote (strip query) with
  | None => raise UnicodeEncodeError
  | Some encoded_query =>
      let url := DICTIONARY_URL ++ encoded_query in
      try_except_RequestException
        (response <- requests_get url 10 (Some HEADERS) ;;
         raise_for_status response ;;;
         match re_search pattern (text response) with
         | Some match_ => ret (Some (group1 match_))
         | None => print (NoAudioTokenFound query) ;;; ret None
         end)
        (fun e => print (ErrorFetchingPage query e) ;;; ret None)
  end.

(** [download_audio(token, query, output_dir)] (lines 73-110) *)
Definition download_audio (token query output_dir : str) : M bool :=
  let audio_url := AUDIO_URL ++ token ++ str_of ".mp3" in
  let output_path := Path_div (Path_of output_dir) (filename query) in
  try_except_RequestException
    (print (DownloadingAudio query) ;;;
     response <- requests_get audio_url 30 None ;;
     raise_for_status response ;;;
     Path_mkdir (Path_parent output_path) true true ;;;
     f <- open_wb output_path ;;
     write output_path f (content response) ;;;
     print (SuccessfullySaved output_path) ;;;
     ret true)
    (fun e => print (ErrorDownloadingAudio e) ;;; ret false).

(** [main()] (lines 113-150), from the parsed arguments on. *)
Definition main (query output_dir : str) : M unit :=
  token <- get_audio_token query ;;
  match token with
  | None | Some [] => sys_exit 1
  | Some token =>
      print (FoundAudioToken token) ;;;
      success <- download_audio token query output_dir ;;
      if negb success then sys_exit 1
      else print Done
  end.

End Program.

(** The exit status of the process: 0 when [main] returns, the code of
    [sys.exit], and 1 when an exception reaches the top level. *)
Definition exit_status {A} (r : result A) : Z :=
  match r with
  | Ret _ => 0
  | Raise (SystemExit code) => code
  | Raise _ => 1
  end.

(** ** The file name, as the specification words it *)

(** Every maximal run of separators becomes one underscore: a separator
    is dropped when another follows it, and the last of a run is the
    underscore. *)
Fixpoint collapse_runs (sep : Z -> bool) (s : str) : str :=
  match s with
  | [] => []
  | c :: s' =>
      if sep c then
        match s' with
        | c' :: _ => if sep c' then collapse_runs sep s'
                     else UNDERSCORE :: collapse_runs sep s'
        | [] => [UNDERSCORE]
        end
      else c :: collapse_runs sep s'
  end.

Definition is_separator (c : Z) : bool :=
  (c =? HYPHEN) || Py_UNICODE_ISSPACE c.

Section FilenameSpec.
Context `{UnicodeData}.

(** A word character: alphanumeric, or the underscore. *)
Definition is_word (c : Z) : bool :=
  Py_UNICODE_ISALNUM c || (c =? UNDERSCORE).

(** What the specification says is kept: "alphanumeric, whitespace, or
    hyphen". *)
Definition kept_in_spec (c : Z) : bool :=
  Py_UNICODE_ISALNUM c || Py_UNICODE_ISSPACE c || (c =? HYPHEN).

(** What is kept when the underscore counts as well. *)
Definition kept_with_underscore (c : Z) : bool :=
  is_word c || Py_UNICODE_ISSPACE c || (c =? HYPHEN).

(** The derivation in the specification's words, for a given set of kept
    characters: trim, strip what is not kept, collapse the runs of
    hyphens and whitespace, append the extension. *)
Definition derive_filename (kept : Z -> bool) (query : str) : str :=
  collapse_runs is_separator (List.filter kept (strip query)) ++ str_of ".mp3".

Definition spec_filename : str -> str := derive_filename kept_in_spec.

Definition amended_filename : str -> str := derive_filename kept_with_underscore.

End FilenameSpec.

(** ** Tokens, as the specification words them *)

Definition is_token_char (c : Z) : bool := is_upper c || is_digit c.

(** One uppercase letter, a slash, then a run (not empty) of uppercase
    letters and digits. *)
Definition is_token (tok : str) : bool :=
  match tok with
  | l :: sl :: c :: run =>
      is_upper l && (sl =? SLASH) && forallb is_token_char (c :: run)
  | _ => false
  end.

(** [body] holds the token [tok] between quotation marks right after
    [pre], and [post] follows. *)
Definition quoted_at (body pre tok post : str) : Prop :=
  is_token tok = true /\
  body = pre ++ QUOTATION_MARK :: tok ++ QUOTATION_MARK :: post.

(** No quoted token of [body] starts before this one. *)
Definition first_quoted (body pre tok post : str) : Prop :=
  quoted_at body pre tok post /\
  forall pre' tok' post',
    quoted_at body pre' tok' post' -> (length pre <= length pre')%nat.

Definition no_quoted_token (body : str) : Prop :=
  forall pre tok post, ~ quoted_at body pre tok post.

(** ** What a run did *)

(** The requests of a log, in order. *)
Definition requests_of (l : list event) : list request :=
  flat_map (fun e => match e with EGet r => [r] | _ => [] end) l.

(** The file system calls of a log, in order. *)
Definition fs_calls_of (l : list event) : list event :=
  List.filter
    (fun e => match e with EMkdir _ | EOpen _ | EWrite _ _ => true | _ => false end)
    l.

(** A status that [raise_for_status] lets pass. *)
Definition ok_status (response : Response) : bool :=
  negb ((400 <=? status_code response) && (status_code response <? 600)).

(** The request of the resolver for an encoded query. *)
Definition page_request (encoded_query : str) : request :=
  {| url := DICTIONARY_URL ++ encoded_query; timeout := 10;
     headers := Some HEADERS |}.

(** The request of the fetcher for a token. *)
Definition audio_request (token : str) : request :=
  {| url := AUDIO_URL ++ token ++ str_of ".mp3"; timeout := 30;
     headers := None |}.

(** The tree after the directories [names] were made one inside the
    other, from [d] down. *)
Fixpoint make_dirs (t : tree) (d : loc) (names : list str) : tree :=
  match names with
  | [] => t
  | n :: rest => make_dirs (tree_set t (d ++ [n]) Dir) (d ++ [n]) rest
  end.

Definition TOKEN_EXAMPLE : str := str_of "C/BNUT8S5S2HDK".

(** [data-audio="C/BNUT8S5S2HDK"] *)
Definition DATA_AUDIO_EXAMPLE : str :=
  str_of "data-audio=" ++ QUOTATION_MARK :: TOKEN_EXAMPLE ++ [QUOTATION_MARK].

(** Lines 100-106 of [download_audio]: what follows a successful
    response. *)
Definition save_audio (output_path : Path) (data : bytes) : M bool :=
  Path_mkdir (Path_parent output_path) true true ;;;
  f <- open_wb output_path ;;
  write output_path f data ;;;
  print (SuccessfullySaved output_path) ;;;
  ret true.

(** Nothing is at, or below, the first of the missing directories. *)
Definition absent_below (t : tree) (d : loc) (missing : list str) : Prop :=
  match missing with
  | [] => True
  | m :: _ => forall rest, t (d ++ m :: rest) = None
  end.

(** The tree after a download was saved under [name] in the directory
    made of [missing] below [d]. *)
Definition saved_tree (t : tree) (d : loc) (missing : list str)
    (name : str) (data : bytes) : tree :=
  tree_set (make_dirs t d missing) (d ++ missing ++ [name]) (File data).

(** The output directory can be made: its first segments walk to [d],
    the others are missing below [d], the system refuses nothing there,
    and no directory stands where the file [name] goes. *)
Definition can_save (w : world) (dir : Path) (d : loc)
    (existing missing : list str) (name : str) : Prop :=
  parts dir = existing ++ missing /\
  walk (fs w) (start w dir) existing = Ok d /\
  Forall (fun n => n <> DOTDOT) missing /\
  absent_below (fs w) d missing /\
  (forall l, refused w (d ++ l) = false) /\
  fs w (d ++ missing ++ [name]) <> Some Dir.

(** What may stand in a quoted token, its quotation marks included. *)
Definition in_quoted (c : Z) : bool :=
  (c =? QUOTATION_MARK) || is_token_char c || (c =? SLASH).

(** [os.mkdir] through [Path.mkdir] changes the tree at most, and fails
    with an [OSError] only. *)
Definition fs_outcome {A} (w : world) (r : result A * world) : Prop :=
  (exists t, snd r = set_fs w t) /\
  ((exists a, fst r = Ret a) \/ (exists e, fst r = Raise (OSError e))).

(** [w'] is [w] with more events in its log. *)
Definition logged (w w' : world) (l : list event) : Prop :=
  w' = {| net := net w; cwd := cwd w; fs := fs w; refused := refused w;
          log := log w ++ l |}.

(** A code point that UTF-8 can encode: not a surrogate, and in range. *)
Definition is_scalar_value (c : Z) : bool :=
  in_range 0 0x10FFFF c && negb (in_range 0xD800 0xDFFF c).

(** ** Worlds for the examples *)

(** A page with the attribute of the specification's example, and a
    second quoted token after it. *)
Definition EXAMPLE_PAGE : str :=
  str_of "<a " ++ DATA_AUDIO_EXAMPLE ++ str_of "> x="
  ++ QUOTATION_MARK :: str_of "D/X9" ++ [QUOTATION_MARK].

Definition EXAMPLE_AUDIO : bytes := [73; 68; 51; 4].

(** A network that answers the page request for [encoded_query] with
    [page] and the audio request for [TOKEN_EXAMPLE] with [audio]. *)
Definition example_net (encoded_query : str) (page audio : option Response)
    : request -> option Response :=
  fun r =>
    if bool_decide (url r = url (page_request encoded_query)) then page
    else if bool_decide (url r = url (audio_request TOKEN_EXAMPLE)) then audio
    else None.

Definition HOME : loc := [str_of "home"; str_of "user"].

(** A home directory, with a regular file [notes] in it. *)
Definition example_tree : tree :=
  tree_of [([str_of "home"], Dir); (HOME, Dir);
           (HOME ++ [str_of "notes"], File [104; 105])].

Definition example_world (encoded_query : str) (page audio : option Response)
    : world :=
  {| net := example_net encoded_query page audio;
     cwd := HOME;
     fs := example_tree;
     refused := fun _ => false;
     log := [] |}.

Definition ok_page (body : str) : option Response :=
  Some {| status_code := 200; text := body; content := [] |}.

Definition ok_audio : option Response :=
  Some {| status_code := 200; text := []; content := EXAMPLE_AUDIO |}.

(** * Properties *)

(** ** Regular expressions *)

Section RegexFacts.
Context `{UnicodeData}.

Lemma re_sub_from_drop p repl : forall n s,
  (n <= length s)%nat ->
  re_sub_from p repl n s = re_sub_from p repl 0 (drop n s).
Proof.
  induction n as [|n IH]; intros s Hn.
  - now rewrite drop_0.
  - destruct s as [|c s]; [simpl in Hn; lia|].
    simpl in Hn. cbn [re_sub_from drop]. apply IH. lia.
Qed.

Lemma drop_run_length cs s : (length (drop_run cs s) <= length s)%nat.
Proof.
  induction s as [|c s IH]; [reflexivity|].
  cbn [drop_run]. destruct (cs c); simpl in *; lia.
Qed.

Lemma drop_drop_run cs s :
  drop (length s - length (drop_run cs s)) s = drop_run cs s.
Proof.
  induction s as [|c s IH]; [reflexivity|].
  cbn [drop_run]. destruct (cs c).
  - pose proof (drop_run_length cs s).
    replace (length (c :: s) - length (drop_run cs s))%nat
      with (S (length s - length (drop_run cs s))) by (simpl; lia).
    exact IH.
  - now rewrite Nat.sub_diag.
Qed.

Lemma greedy_cons {A} cs (k : str -> option A) c s :
  greedy cs k (c :: s)
  = if cs c then
      match greedy cs k s with
      | Some r => Some r
      | None => k s
      end
    else None.
Proof. reflexivity. Qed.

(** A greedy set followed by nothing takes the whole run. *)
Lemma greedy_takes_run (cs : Z -> bool) (g : captures) : forall s c,
  cs c = true ->
  greedy cs (fun rest => Some (rest, g)) (c :: s) = Some (drop_run cs s, g).
Proof.
  induction s as [|c' s IH]; intros c Hc.
  - cbn. now rewrite Hc.
  - rewrite greedy_cons, Hc. cbn [drop_run]. destruct (cs c') eqn:Hc'.
    + now rewrite (IH c' Hc').
    + now rewrite greedy_cons, Hc'.
Qed.

Lemma collapse_runs_cons sep c s :
  collapse_runs sep (c :: s)
  = if sep c then
      match s with
      | c' :: _ => if sep c' then collapse_runs sep s
                   else UNDERSCORE :: collapse_runs sep s
      | [] => [UNDERSCORE]
      end
    else c :: collapse_runs sep s.
Proof. reflexivity. Qed.

Lemma collapse_runs_run sep : forall s c,
  sep c = true ->
  collapse_runs sep (c :: s) = UNDERSCORE :: collapse_runs sep (drop_run sep s).
Proof.
  induction s as [|c' s IH]; intros c Hc.
  - cbn. now rewrite Hc.
  - rewrite collapse_runs_cons, Hc. cbn [drop_run].
    destruct (sep c') eqn:Hc'; [|reflexivity].
    exact (IH c' Hc').
Qed.

Lemma collapse_runs_ext sep sep' s :
  (forall c, sep c = sep' c) -> collapse_runs sep s = collapse_runs sep' s.
Proof.
  intros E. induction s as [|c s IH]; [reflexivity|].
  cbn [collapse_runs]. rewrite <- (E c), IH.
  destruct s as [|c' s]; [reflexivity|]. now rewrite <- (E c').
Qed.

(** [re.sub] of a one-character set by nothing is a filter. *)
Lemma re_sub_SetOf n items s :
  re_sub [SetOf n items] [] s
  = List.filter (fun c => negb (set_matches n items c)) s.
Proof.
  unfold re_sub. induction s as [|c s IH]; [reflexivity|].
  cbn [re_sub_from rmatch List.filter].
  destruct (set_matches n items c); cbn [negb].
  - replace (length (c :: s) - length s)%nat with 1%nat by (simpl; lia).
    exact IH.
  - now rewrite IH.
Qed.

(** [re.sub] of a repeated set replaces each maximal run. *)
Lemma re_sub_SetPlus n items s :
  re_sub [SetPlus n items] [UNDERSCORE] s
  = collapse_runs (set_matches n items) s.
Proof.
  unfold re_sub.
  remember (length s) as k eqn:Hk.
  assert (Hle : (length s <= k)%nat) by lia. clear Hk.
  revert s Hle. induction k as [|k IH]; intros s Hle.
  - destruct s; [reflexivity | simpl in Hle; lia].
  - destruct s as [|c s]; [reflexivity|].
    cbn [re_sub_from rmatch].
    destruct (set_matches n items c) eqn:Hc.
    + rewrite (greedy_takes_run _ _ s c Hc).
      pose proof (drop_run_length (set_matches n items) s) as Hd.
      replace (length (c :: s) - length (drop_run (set_matches n items) s))%nat
        with (S (length s - length (drop_run (set_matches n items) s)))
        by (simpl; lia).
      rewrite re_sub_from_drop by lia.
      rewrite drop_drop_run, (collapse_runs_run _ s c Hc).
      cbn [app]. f_equal. apply IH. simpl in Hle. lia.
    + cbn [greedy]. rewrite Hc. cbn [collapse_runs]. rewrite Hc.
      f_equal. apply IH. simpl in Hle. lia.
Qed.

Lemma special_characters_kept c :
  negb (set_matches true [SWord; SSpace; SChar HYPHEN] c) = kept_with_underscore c.
Proof.
  unfold set_matches, kept_with_underscore, is_word.
  cbn [existsb set_item_matches].
  now destruct (Py_UNICODE_ISALNUM c), (c =? UNDERSCORE),
    (Py_UNICODE_ISSPACE c), (c =? HYPHEN).
Qed.

Lemma separators_is_separator c :
  set_matches false [SChar HYPHEN; SSpace] c = is_separator c.
Proof.
  unfold set_matches, is_separator. cbn [existsb set_item_matches].
  now destruct (c =? HYPHEN), (Py_UNICODE_ISSPACE c).
Qed.

Lemma filter_ext_bool (f g : Z -> bool) s :
  (forall c, f c = g c) -> List.filter f s = List.filter g s.
Proof.
  intros E. induction s as [|c s IH]; [reflexivity|].
  cbn. now rewrite E, IH.
Qed.

(** The code's file name is the derivation that keeps the underscore. *)
Lemma filename_amended query : filename query = amended_filename query.
Proof.
  unfold filename, safe_filename, amended_filename, derive_filename.
  f_equal. unfold special_characters, separators.
  rewrite re_sub_SetOf.
  change (str_of "_") with [UNDERSCORE]. rewrite re_sub_SetPlus.
  rewrite (collapse_runs_ext _ _ _ separators_is_separator).
  f_equal. apply filter_ext_bool, special_characters_kept.
Qed.

Lemma safe_filename_eq query :
  safe_filename query
  = collapse_runs is_separator (List.filter kept_with_underscore (strip query)).
Proof.
  pose proof (filename_amended query) as E.
  unfold filename, amended_filename, derive_filename in E.
  now apply app_inv_tail in E.
Qed.

Lemma collapse_runs_word s :
  forallb kept_with_underscore s = true ->
  forallb is_word (collapse_runs is_separator s) = true.
Proof.
  induction s as [|c s IH]; [reflexivity|].
  cbn [forallb]. intros [Hc Hs]%andb_true_iff. specialize (IH Hs).
  assert (HU : is_word UNDERSCORE = true).
  { unfold is_word. now rewrite orb_true_r. }
  cbn [collapse_runs]. destruct (is_separator c) eqn:Hsep.
  - destruct s as [|c' s]; [cbn [forallb]; now rewrite HU|].
    destruct (is_separator c'); [exact IH|].
    cbn [forallb]. now rewrite HU, IH.
  - cbn [forallb]. rewrite IH, andb_true_r.
    unfold kept_with_underscore in Hc. unfold is_separator in Hsep.
    apply orb_false_iff in Hsep as [Hh Hsp]. rewrite Hh, Hsp in Hc.
    now rewrite !orb_false_r in Hc.
Qed.

Lemma forallb_filter (f : Z -> bool) s : forallb f (List.filter f s) = true.
Proof.
  induction s as [|c s IH]; [reflexivity|].
  cbn. destruct (f c) eqn:E; [cbn; now rewrite E|exact IH].
Qed.

(** The stem of the file name holds word characters only. *)
Lemma safe_filename_word query : forallb is_word (safe_filename query) = true.
Proof.
  rewrite safe_filename_eq. apply collapse_runs_word, forallb_filter.
Qed.

End RegexFacts.

(** ** The file name *)

Section FilenameFacts.
Context `{UnicodeData}.

Lemma filter_none (f : Z -> bool) s :
  forallb (fun c => negb (f c)) s = true -> List.filter f s = [].
Proof.
  induction s as [|c s IH]; [reflexivity|].
  cbn. intros [Hc Hs]%andb_true_iff.
  apply negb_true_iff in Hc. rewrite Hc. auto.
Qed.

(** A query without a kept character has the empty stem. *)
Lemma filename_nothing_kept query :
  forallb (fun c => negb (kept_with_underscore c)) (strip query) = true ->
  filename query = str_of ".mp3".
Proof.
  intros Hq. unfold filename. rewrite safe_filename_eq.
  now rewrite (filter_none _ _ Hq).
Qed.

End FilenameFacts.

(** ** The token pattern *)

Section TokenFacts.
Context `{UnicodeData}.

Lemma set_upper c : set_matches false [SRange 65 90] c = is_upper c.
Proof. unfold set_matches. cbn. now rewrite orb_false_r. Qed.

Lemma set_token_char c :
  set_matches false [SRange 65 90; SRange 48 57] c = is_token_char c.
Proof. unfold set_matches. cbn. now rewrite orb_false_r. Qed.

(** The greedy set stops where the rest of the pattern first succeeds
    after the whole run. *)
Lemma greedy_whole_run {A} cs (k : str -> option A) r : forall run x rest,
  run <> [] ->
  forallb cs run = true ->
  cs x = false ->
  k (x :: rest) = Some r ->
  greedy cs k (run ++ x :: rest) = Some r.
Proof.
  induction run as [|c run IH]; intros x rest Hne Hrun Hx Hk; [easy|].
  cbn [forallb] in Hrun. apply andb_true_iff in Hrun as [Hc Hrun].
  cbn [app]. rewrite greedy_cons, Hc.
  destruct run as [|c' run].
  - cbn [app]. rewrite greedy_cons, Hx. exact Hk.
  - now rewrite (IH x rest).
Qed.

(** What a successful greedy set consumed. *)
Lemma greedy_inv {A} cs (k : str -> option A) r : forall s,
  greedy cs k s = Some r ->
  exists run rest,
    run <> [] /\ forallb cs run = true /\ s = run ++ rest /\ k rest = Some r.
Proof.
  induction s as [|c s IH]; intros Hg; [discriminate|].
  rewrite greedy_cons in Hg. destruct (cs c) eqn:Hc; [|discriminate].
  destruct (greedy cs k s) as [r'|] eqn:Hs.
  - destruct (IH Hg) as (run & rest & _ & Hrun & -> & Hk).
    exists (c :: run), rest. cbn [forallb]. now rewrite Hc, Hrun.
  - exists [c], s. cbn. now rewrite Hc.
Qed.

Lemma take_app_exact (a b : str) : take (length (a ++ b) - length b) (a ++ b) = a.
Proof.
  rewrite length_app.
  replace (length a + length b - length b)%nat with (length a) by lia.
  now rewrite take_app_length.
Qed.

(** The pattern matches a quoted token, and captures it. *)
Lemma rmatch_pattern_token g tok post :
  is_token tok = true ->
  rmatch pattern g (QUOTATION_MARK :: tok ++ QUOTATION_MARK :: post)
  = Some (post, (Some (tok ++ QUOTATION_MARK :: post),
                 Some (QUOTATION_MARK :: post))).
Proof.
  destruct tok as [|l [|sl [|c run]]]; try discriminate.
  cbn [is_token]. intros [[Hl Hsl]%andb_true_iff Hrun]%andb_true_iff.
  unfold pattern. cbn [rmatch app fst snd].
  rewrite Z.eqb_refl, set_upper, Hl, Hsl.
  change (c :: run ++ QUOTATION_MARK :: post)
    with ((c :: run) ++ QUOTATION_MARK :: post).
  apply greedy_whole_run; [easy | | | ].
  - rewrite <- Hrun. clear. generalize (c :: run). intros l.
    induction l as [|x l IH]; [reflexivity|].
    cbn [forallb]. now rewrite set_token_char, IH.
  - now rewrite set_token_char.
  - cbn [rmatch fst snd]. now rewrite Z.eqb_refl.
Qed.

(** Whatever the pattern matches is a quoted token. *)
Lemma rmatch_pattern_inv g s rest caps :
  rmatch pattern g s = Some (rest, caps) ->
  exists tok, is_token tok = true /\
    s = QUOTATION_MARK :: tok ++ QUOTATION_MARK :: rest.
Proof.
  unfold pattern. cbn [rmatch].
  destruct s as [|q s]; [discriminate|].
  destruct (q =? QUOTATION_MARK) eqn:Hq; [|discriminate].
  apply Z.eqb_eq in Hq as ->.
  destruct s as [|l s]; [discriminate|].
  rewrite set_upper. destruct (is_upper l) eqn:Hl; [|discriminate].
  destruct s as [|sl s]; [discriminate|].
  destruct (sl =? SLASH) eqn:Hsl; [|discriminate].
  intros (run & rest' & Hne & Hrun & -> & Hk)%greedy_inv.
  cbn [rmatch] in Hk.
  destruct rest' as [|q' rest']; [discriminate|].
  destruct (q' =? QUOTATION_MARK) eqn:Hq'; [|discriminate].
  apply Z.eqb_eq in Hq' as ->. injection Hk as -> _.
  exists (l :: sl :: run). split.
  - destruct run as [|c run]; [easy|].
    cbn [is_token]. rewrite Hl, Hsl. cbn [andb].
    rewrite <- Hrun. clear. generalize (c :: run). intros l.
    induction l as [|x l IH]; [reflexivity|].
    cbn [forallb]. now rewrite set_token_char, IH.
  - reflexivity.
Qed.

Lemma re_search_unfold p s :
  re_search p s
  = match rmatch p (None, None) s with
    | Some (rest, g) => Some {| m_start := s; m_end := rest; m_caps := g |}
    | None =>
        match s with
        | [] => None
        | _ :: s' => re_search p s'
        end
    end.
Proof. destruct s; reflexivity. Qed.

Lemma quoted_at_cons c body pre tok post :
  quoted_at body pre tok post -> quoted_at (c :: body) (c :: pre) tok post.
Proof. intros [Ht ->]. now split. Qed.

(** The search returns the first quoted token. *)
Lemma re_search_first : forall pre body tok post,
  first_quoted body pre tok post ->
  option_map group1 (re_search pattern body) = Some tok.
Proof.
  induction pre as [|c pre IH]; intros body tok post [[Ht ->] Hmin].
  - cbn [app]. rewrite re_search_unfold, (rmatch_pattern_token _ _ _ Ht).
    cbn [option_map]. unfold group1. cbn [m_caps].
    f_equal. apply take_app_exact.
  - cbn [app]. rewrite re_search_unfold.
    destruct (rmatch pattern (None, None) _) as [[rest caps]|] eqn:Hm.
    + apply rmatch_pattern_inv in Hm as (tok' & Ht' & E).
      specialize (Hmin [] tok' rest (conj Ht' E)). cbn in Hmin. lia.
    + apply (IH _ tok post). split; [now split|].
      intros pre' tok' post' Hq.
      specialize (Hmin _ _ _ (quoted_at_cons c _ _ _ _ Hq)).
      cbn in Hmin. lia.
Qed.

(** Without a quoted token the search finds nothing. *)
Lemma re_search_none : forall body,
  no_quoted_token body -> re_search pattern body = None.
Proof.
  induction body as [|c body IH]; intros Hno; [reflexivity|].
  rewrite re_search_unfold.
  destruct (rmatch pattern (None, None) _) as [[rest caps]|] eqn:Hm.
  - apply rmatch_pattern_inv in Hm as (tok & Ht & E).
    now destruct (Hno [] tok rest).
  - apply IH. intros pre tok post Hq.
    exact (Hno _ _ _ (quoted_at_cons c _ _ _ _ Hq)).
Qed.

(** And conversely: a search that finds nothing shows there is none. *)
Lemma re_search_none_inv : forall body,
  re_search pattern body = None -> no_quoted_token body.
Proof.
  intros body Hs pre. revert body Hs.
  induction pre as [|c pre IH]; intros body Hs tok post [Ht ->].
  - cbn [app] in Hs. rewrite re_search_unfold in Hs.
    now rewrite (rmatch_pattern_token _ _ _ Ht) in Hs.
  - cbn [app] in Hs. rewrite re_search_unfold in Hs.
    destruct (rmatch pattern (None, None) _) as [[rest caps]|]; [discriminate|].
    now apply (IH _ Hs tok post).
Qed.

Lemma token_in_quoted tok :
  is_token tok = true -> forallb in_quoted tok = true.
Proof.
  destruct tok as [|l [|sl [|c run]]]; try discriminate.
  cbn [is_token]. intros [[Hl Hsl]%andb_true_iff Hrun]%andb_true_iff.
  assert (Hgen : forall l', forallb is_token_char l' = true ->
                            forallb in_quoted l' = true).
  { induction l' as [|x l' IH]; [reflexivity|].
    cbn [forallb]. intros [Hx Hl']%andb_true_iff.
    unfold in_quoted at 1. rewrite Hx, orb_true_r. cbn [orb andb]. auto. }
  change (l :: sl :: c :: run) with ([l; sl] ++ c :: run).
  rewrite forallb_app, (Hgen _ Hrun), andb_true_r.
  cbn [forallb]. unfold in_quoted, is_token_char.
  now rewrite Hl, Hsl, !orb_true_r.
Qed.

(** A match that starts before a character foreign to quoted tokens ends
    before it. *)
Lemma rmatch_pattern_within g l y rest' rest caps :
  in_quoted y = false ->
  rmatch pattern g (l ++ y :: rest') = Some (rest, caps) ->
  exists tok post, is_token tok = true /\
    l = QUOTATION_MARK :: tok ++ QUOTATION_MARK :: post.
Proof.
  intros Hy (tok & Ht & E)%rmatch_pattern_inv.
  exists tok.
  assert (E' : l ++ y :: rest' = (QUOTATION_MARK :: tok ++ [QUOTATION_MARK]) ++ rest).
  { rewrite E. cbn [app]. now rewrite <- app_assoc. }
  clear E. rename E' into E.
  assert (Hall : forallb in_quoted (QUOTATION_MARK :: tok ++ [QUOTATION_MARK]) = true).
  { cbn [forallb]. rewrite forallb_app, (token_in_quoted _ Ht). reflexivity. }
  apply app_eq_app in E as [m [[E1 E2]|[E1 E2]]].
  - exists m. split; [exact Ht|]. rewrite E1. cbn [app]. now rewrite <- app_assoc.
  - destruct m as [|y' m].
    + exists []. split; [exact Ht|]. rewrite app_nil_r in E1. now rewrite <- E1.
    + injection E2 as <- _. rewrite E1, forallb_app in Hall.
      apply andb_true_iff in Hall as [_ Hall]. cbn [forallb] in Hall.
      now rewrite Hy in Hall.
Qed.

(** The search skips a text without quoted tokens that is followed by a
    character foreign to them. *)
Lemma re_search_skip : forall pre y rest,
  no_quoted_token pre ->
  in_quoted y = false ->
  re_search pattern (pre ++ y :: rest) = re_search pattern (y :: rest).
Proof.
  induction pre as [|c pre IH]; intros y rest Hno Hy; [reflexivity|].
  cbn [app]. rewrite re_search_unfold.
  destruct (rmatch pattern (None, None) _) as [[r caps]|] eqn:Hm.
  - change (c :: pre ++ y :: rest) with ((c :: pre) ++ y :: rest) in Hm.
    apply rmatch_pattern_within in Hm as (tok & post & Ht & E); [|exact Hy].
    now destruct (Hno [] tok post).
  - apply IH; [|exact Hy]. intros p t q Hq.
    exact (Hno _ _ _ (quoted_at_cons c _ _ _ _ Hq)).
Qed.

Lemma re_search_cons_ne c s :
  (c =? QUOTATION_MARK) = false ->
  re_search pattern (c :: s) = re_search pattern s.
Proof.
  intros Hc. rewrite re_search_unfold. unfold pattern at 1. cbn [rmatch].
  now rewrite Hc.
Qed.

(** The example of the specification: the first quoted token of the page
    is the one of its [data-audio] attribute. *)
Lemma re_search_data_audio pre post :
  no_quoted_token pre ->
  option_map group1 (re_search pattern (pre ++ DATA_AUDIO_EXAMPLE ++ post))
  = Some TOKEN_EXAMPLE.
Proof.
  intros Hno. unfold DATA_AUDIO_EXAMPLE.
  change (str_of "data-audio=") with [100; 97; 116; 97; 45; 97; 117; 100; 105; 111; 61].
  cbn [app]. rewrite re_search_skip by easy.
  do 11 (rewrite re_search_cons_ne by reflexivity).
  apply (re_search_first [] _ _ post). split.
  - split; [reflexivity|]. cbn [app]. now rewrite <- app_assoc.
  - intros; cbn; lia.
Qed.

End TokenFacts.

(** ** Effects *)

Lemma set_fs_id w : set_fs w (fs w) = w.
Proof. now destruct w. Qed.

Lemma requests_of_app l l' : requests_of (l ++ l') = requests_of l ++ requests_of l'.
Proof. unfold requests_of. now rewrite flat_map_app. Qed.

Lemma requests_of_get l r : requests_of (l ++ [EGet r]) = requests_of l ++ [r].
Proof. now rewrite requests_of_app. Qed.

Lemma requests_of_print l m : requests_of (l ++ [EPrint m]) = requests_of l.
Proof. rewrite requests_of_app. cbn. now rewrite app_nil_r. Qed.

Lemma fs_calls_of_app l l' : fs_calls_of (l ++ l') = fs_calls_of l ++ fs_calls_of l'.
Proof. unfold fs_calls_of. now rewrite List.filter_app. Qed.

Lemma mkdir_no_parents_outcome exist_ok p w :
  fs_outcome w (mkdir_no_parents exist_ok p w).
Proof.
  unfold mkdir_no_parents, fs_outcome.
  destruct (os_mkdir w p) as [t|e]; cbn [fst snd]; [eauto|].
  assert (Hid : exists t, w = set_fs w t) by (exists (fs w); now rewrite set_fs_id).
  destruct e; try (destruct (exist_ok && is_dir w p)); cbn [fst snd]; eauto.
Qed.

Lemma mkdir_parents_outcome r : forall rev_parts exist_ok w,
  fs_outcome w (mkdir_parents exist_ok r rev_parts w).
Proof.
  induction rev_parts as [|x up IH]; intros exist_ok w;
    cbn [mkdir_parents]; unfold fs_outcome;
    assert (Hid : exists t, w = set_fs w t) by (exists (fs w); now rewrite set_fs_id).
  - destruct (os_mkdir w _) as [t|e]; cbn [fst snd]; [eauto|].
    destruct e; try (destruct (exist_ok && is_dir w _)); cbn [fst snd]; eauto.
  - destruct (os_mkdir w _) as [t|e]; cbn [fst snd]; [eauto|].
    destruct e; try (destruct (exist_ok && is_dir w _)); cbn [fst snd]; eauto.
    unfold bind. destruct (IH true w) as [[t1 Hw1] Hr1].
    destruct (mkdir_parents true r up w) as [r1 w1]. cbn [fst snd] in *. subst w1.
    destruct Hr1 as [[[] ->]|[e ->]]; [|eauto].
    destruct (mkdir_no_parents_outcome exist_ok
                {| root := r; parts := rev (x :: up) |} (set_fs w t1))
      as [[t2 Hw2] Hr2].
    split; [|exact Hr2]. exists t2. now rewrite Hw2.
Qed.

(** What a run of [save_audio] is, step by step. *)
Lemma save_audio_run p d w :
  save_audio p d w
  = let dir := Path_parent p in
    match mkdir_parents true (root dir) (rev (parts dir)) (add_event (EMkdir dir) w) with
    | (Raise e, w1) => (Raise e, w1)
    | (Ret _, w1) =>
        match os_open_wb w1 p with
        | Err e => (Raise (OSError e), add_event (EOpen p) w1)
        | Ok (f, t) =>
            (Ret true,
             add_event (EPrint (SuccessfullySaved p))
               (set_fs (add_event (EWrite p d) (set_fs (add_event (EOpen p) w1) t))
                       (tree_set t f (File d))))
        end
    end.
Proof.
  unfold save_audio, Path_mkdir, bind, emit. cbn zeta.
  destruct (mkdir_parents _ _ _ _) as [[[]|e] w1]; [|reflexivity].
  unfold open_wb, bind, emit.
  change (os_open_wb (add_event (EOpen p) w1) p) with (os_open_wb w1 p).
  destruct (os_open_wb w1 p) as [[f t]|e]; reflexivity.
Qed.

(** [save_audio] sends no request, raises no [RequestException], and
    logs its file system calls in order. *)
Lemma save_audio_outcome p d w :
  exists l,
    log (snd (save_audio p d w)) = log w ++ l /\
    requests_of l = [] /\
    ((exists a, fst (save_audio p d w) = Ret a) \/
     (exists e, fst (save_audio p d w) = Raise (OSError e))).
Proof.
  rewrite save_audio_run. cbn zeta.
  destruct (mkdir_parents_outcome (root (Path_parent p)) (rev (parts (Path_parent p)))
              true (add_event (EMkdir (Path_parent p)) w)) as [[t1 Hw1] Hr1].
  destruct (mkdir_parents _ _ _ _) as [r1 w1]. cbn [fst snd] in *. subst w1.
  destruct Hr1 as [[[] ->]|[e ->]].
  - destruct (os_open_wb _ p) as [[f t]|e]; cbn [fst snd log set_fs add_event].
    + exists [EMkdir (Path_parent p); EOpen p; EWrite p d;
              EPrint (SuccessfullySaved p)].
      rewrite <- !app_assoc. eauto.
    + exists [EMkdir (Path_parent p); EOpen p]. rewrite <- !app_assoc. eauto.
  - exists [EMkdir (Path_parent p)]. cbn. eauto.
Qed.

Section Runs.
Context `{UnicodeData}.

(** What a run of the resolver is, for a query that can be encoded. *)
Lemma get_audio_token_run query w e :
  quote (strip query) = Some e ->
  get_audio_token query w
  = let w1 := add_event (EGet (page_request e)) w in
    match net w (page_request e) with
    | None =>
        (Ret None, add_event (EPrint (ErrorFetchingPage query ConnectionError)) w1)
    | Some response =>
        if ok_status response then
          match re_search pattern (text response) with
          | Some m => (Ret (Some (group1 m)), w1)
          | None => (Ret None, add_event (EPrint (NoAudioTokenFound query)) w1)
          end
        else
          (Ret None,
           add_event
             (EPrint (ErrorFetchingPage query (HTTPError (status_code response)))) w1)
    end.
Proof.
  intros Hq. unfold get_audio_token. rewrite Hq.
  unfold try_except_RequestException, requests_get, print, emit,
    raise_for_status, ok_status, raise, ret, bind.
  cbv beta zeta. cbn [net add_event]. fold (page_request e).
  destruct (net w (page_request e)) as [response|]; [|reflexivity].
  destruct ((400 <=? status_code response) && (status_code response <? 600));
    cbn [negb]; [reflexivity|].
  destruct (re_search pattern (text response)); reflexivity.
Qed.

(** A query that cannot be encoded stops the resolver before any effect. *)
Lemma get_audio_token_unencodable query w :
  quote (strip query) = None ->
  get_audio_token query w = (Raise UnicodeEncodeError, w).
Proof. intros Hq. unfold get_audio_token. now rewrite Hq. Qed.

(** What a run of the fetcher is. *)
Lemma download_audio_run token query output_dir w :
  download_audio token query output_dir w
  = let w1 := add_event (EGet (audio_request token))
                (add_event (EPrint (DownloadingAudio query)) w) in
    match net w (audio_request token) with
    | None =>
        (Ret false, add_event (EPrint (ErrorDownloadingAudio ConnectionError)) w1)
    | Some response =>
        if ok_status response then
          save_audio (Path_div (Path_of output_dir) (filename query))
            (content response) w1
        else
          (Ret false,
           add_event
             (EPrint (ErrorDownloadingAudio (HTTPError (status_code response)))) w1)
    end.
Proof.
  change (download_audio token query output_dir)
    with (try_except_RequestException
            (print (DownloadingAudio query) ;;;
             response <- requests_get (url (audio_request token)) 30 None ;;
             raise_for_status response ;;;
             save_audio (Path_div (Path_of output_dir) (filename query))
               (content response))
            (fun e => print (ErrorDownloadingAudio e) ;;; ret false)).
  unfold try_except_RequestException, requests_get, print, emit,
    raise_for_status, ok_status, raise, ret, bind.
  cbv beta zeta. cbn [net add_event].
  change {| url := url (audio_request token); timeout := 30; headers := None |}
    with (audio_request token).
  destruct (net w (audio_request token)) as [response|]; [|reflexivity].
  destruct ((400 <=? status_code response) && (status_code response <? 600));
    cbn [negb]; [reflexivity|].
  match goal with |- context [save_audio ?p ?d ?w1] =>
    destruct (save_audio_outcome p d w1) as (l & _ & _ & [[a Ha]|[e Ha]]);
    destruct (save_audio p d w1) as [r w2]; cbn [fst] in Ha; now subst r
  end.
Qed.

End Runs.

(** ** The directory tree *)

Lemma unsnoc_snoc {A} (l : list A) x : unsnoc (l ++ [x]) = Some (l, x).
Proof. unfold unsnoc. rewrite rev_app_distr. cbn. now rewrite rev_involutive. Qed.

Lemma unsnoc_inv {A} (l init : list A) x :
  unsnoc l = Some (init, x) -> l = init ++ [x].
Proof.
  unfold unsnoc. destruct (rev l) as [|y r] eqn:E; [discriminate|].
  intros [= <- <-]. rewrite <- (rev_involutive l), E. reflexivity.
Qed.

Lemma walk_app t : forall a cur b,
  walk t cur (a ++ b)
  = match walk t cur a with
    | Ok d => walk t d b
    | Err e => Err e
    end.
Proof.
  induction a as [|s a IH]; intros cur b; [reflexivity|].
  cbn [app walk]. destruct (bool_decide (s = DOTDOT)); [apply IH|].
  destruct (t (cur ++ [s])) as [[|c]|]; [apply IH|reflexivity..].
Qed.

(** A walk that succeeds still does when entries are added. *)
Lemma walk_mono (t t' : tree) :
  (forall l n, t l = Some n -> t' l = Some n) ->
  forall segs cur d, walk t cur segs = Ok d -> walk t' cur segs = Ok d.
Proof.
  intros Hsub. induction segs as [|s segs IH]; intros cur d; [easy|].
  cbn [walk]. destruct (bool_decide (s = DOTDOT)); [apply IH|].
  destruct (t (cur ++ [s])) as [[|c]|] eqn:E; try discriminate.
  rewrite (Hsub _ _ E). apply IH.
Qed.

Lemma tree_set_eq t l n : tree_set t l n l = Some n.
Proof. unfold tree_set. now rewrite bool_decide_eq_true_2. Qed.

Lemma tree_set_ne t l n l' : l' <> l -> tree_set t l n l' = t l'.
Proof. intros Hne. unfold tree_set. now rewrite bool_decide_eq_false_2. Qed.

Lemma make_dirs_snoc : forall names t d m,
  make_dirs t d (names ++ [m])
  = tree_set (make_dirs t d names) (d ++ names ++ [m]) Dir.
Proof.
  induction names as [|n names IH]; intros t d m; [reflexivity|].
  cbn [app make_dirs]. rewrite IH. now rewrite <- app_assoc.
Qed.

(** [make_dirs] touches the places of the new directories only. *)
Lemma make_dirs_elsewhere : forall names t d l,
  (forall pre suf, names = pre ++ suf -> pre <> [] -> l <> d ++ pre) ->
  make_dirs t d names l = t l.
Proof.
  induction names as [|n names IH]; intros t d l Hl; [reflexivity|].
  cbn [make_dirs]. rewrite IH.
  - apply tree_set_ne. now apply (Hl [n] names).
  - intros pre suf -> Hpre. rewrite <- app_assoc.
    now apply (Hl (n :: pre) suf).
Qed.

(** Every new directory is there. *)
Lemma make_dirs_made : forall names t d pre suf,
  names = pre ++ suf -> pre <> [] ->
  make_dirs t d names (d ++ pre) = Some Dir.
Proof.
  induction names as [|n names IH]; intros t d pre suf E Hpre.
  - now destruct pre.
  - destruct pre as [|n' pre]; [easy|]. injection E as <- ->.
    cbn [make_dirs]. destruct pre as [|n2 pre].
    + rewrite make_dirs_elsewhere; [apply tree_set_eq|].
      intros p s _ Hp E. apply (f_equal length) in E.
      rewrite !length_app in E. destruct p; [easy|]. cbn in E. lia.
    + change (d ++ n :: n2 :: pre) with (d ++ [n] ++ n2 :: pre).
      rewrite app_assoc. now apply (IH _ _ _ suf).
Qed.

Lemma walk_make_dirs : forall names t d,
  Forall (fun n => n <> DOTDOT) names ->
  walk (make_dirs t d names) d names = Ok (d ++ names).
Proof.
  induction names as [|n names IH]; intros t d Hn.
  - now rewrite app_nil_r.
  - apply Forall_cons_iff in Hn as [Hn Hnames].
    cbn [walk]. rewrite bool_decide_eq_false_2 by exact Hn.
    rewrite (make_dirs_made (n :: names) t d [n] names) by easy.
    cbn [make_dirs]. rewrite (IH _ _ Hnames). now rewrite <- app_assoc.
Qed.

Lemma mkdir_parents_unfold exist_ok r rev_parts w :
  mkdir_parents exist_ok r rev_parts w
  = let self := {| root := r; parts := rev rev_parts |} in
    match os_mkdir w self with
    | Ok t => (Ret tt, set_fs w t)
    | Err ENOENT =>
        match rev_parts with
        | [] => (Raise (OSError ENOENT), w)
        | _ :: up =>
            (mkdir_parents true r up ;;; mkdir_no_parents exist_ok self) w
        end
    | Err e =>
        if exist_ok && is_dir w self then (Ret tt, w)
        else (Raise (OSError e), w)
    end.
Proof. destruct rev_parts; reflexivity. Qed.

(** [os.mkdir] of a directory that is there fails with [EEXIST]. *)
Lemma os_mkdir_existing w p : is_dir w p = true -> os_mkdir w p = Err EEXIST.
Proof.
  unfold is_dir, os_mkdir.
  destruct (unsnoc (parts p)) as [[init name]|] eqn:E; [|reflexivity].
  apply unsnoc_inv in E. rewrite E, walk_app.
  destruct (walk (fs w) (start w p) init) as [d|e]; [|discriminate].
  cbn [walk]. destruct (bool_decide (name = DOTDOT)); [reflexivity|].
  now destruct (fs w (d ++ [name])) as [[|c]|].
Qed.

(** [mkdir(parents=True, exist_ok=True)] of a directory that is there
    changes nothing and raises nothing. *)
Lemma mkdir_parents_existing w p :
  is_dir w p = true ->
  mkdir_parents true (root p) (rev (parts p)) w = (Ret tt, w).
Proof.
  intros Hd. rewrite mkdir_parents_unfold. cbn zeta. rewrite rev_involutive.
  replace {| root := root p; parts := parts p |} with p by now destruct p.
  now rewrite (os_mkdir_existing _ _ Hd), Hd.
Qed.

(** [mkdir(parents=True, exist_ok=True)] of a directory that is there:
    nothing is raised and the tree stays as it is. *)
Lemma Path_mkdir_existing w dir :
  is_dir w dir = true ->
  Path_mkdir dir true true w = (Ret tt, add_event (EMkdir dir) w).
Proof.
  intros Hd. unfold Path_mkdir, bind, emit.
  now rewrite (mkdir_parents_existing (add_event (EMkdir dir) w) dir Hd).
Qed.

(** [mkdir(parents=True, exist_ok=True)] of a path whose last segments
    are missing makes them all, from the first missing one down. *)
Lemma mkdir_parents_creates r existing : forall missing w d,
  walk (fs w) (start w {| root := r; parts := [] |}) existing = Ok d ->
  Forall (fun n => n <> DOTDOT) missing ->
  missing <> [] ->
  absent_below (fs w) d missing ->
  (forall l, refused w (d ++ l) = false) ->
  mkdir_parents true r (rev (existing ++ missing)) w
  = (Ret tt, set_fs w (make_dirs (fs w) d missing)).
Proof.
  induction missing as [|m ms IH] using rev_ind;
    intros w d Hwalk Hnames Hne Habs Href; [easy|].
  apply Forall_app in Hnames as [Hms Hm]. apply Forall_inv in Hm.
  rewrite app_assoc, rev_unit, mkdir_parents_unfold. cbn zeta.
  cbn [rev]. rewrite rev_involutive.
  unfold os_mkdir at 1. cbn [parts]. rewrite unsnoc_snoc, walk_app.
  change (start w {| root := r; parts := _ |})
    with (start w {| root := r; parts := [] |}).
  rewrite Hwalk.
  destruct ms as [|m1 ms].
  - cbn [walk app]. rewrite bool_decide_eq_false_2 by exact Hm.
    rewrite (Habs []), (Href [m]). reflexivity.
  - apply Forall_cons_iff in Hms as Hms'. destruct Hms' as [Hm1 _].
    cbn [walk]. rewrite bool_decide_eq_false_2 by exact Hm1.
    rewrite (Habs []). unfold bind.
    rewrite (IH w d Hwalk Hms) by easy.
    set (t1 := make_dirs (fs w) d (m1 :: ms)).
    assert (Hsub : forall l n, fs w l = Some n -> t1 l = Some n).
    { intros l n Hl. unfold t1. rewrite make_dirs_elsewhere; [exact Hl|].
      intros pre suf E Hpre ->. destruct pre as [|x pre]; [easy|].
      injection E as <- _. now rewrite (Habs pre) in Hl. }
    unfold mkdir_no_parents, os_mkdir. cbn [parts fs set_fs refused].
    rewrite unsnoc_snoc, walk_app.
    change (start _ {| root := r; parts := _ |})
      with (start w {| root := r; parts := [] |}).
    rewrite (walk_mono _ _ Hsub _ _ _ Hwalk).
    unfold t1 at 1. rewrite (walk_make_dirs _ _ _ Hms).
    rewrite bool_decide_eq_false_2 by exact Hm.
    assert (Hfree : t1 (d ++ (m1 :: ms) ++ [m]) = None).
    { unfold t1. rewrite make_dirs_elsewhere.
      - exact (Habs (ms ++ [m])).
      - intros pre suf E Hpre E'. apply app_inv_head in E'.
        apply (f_equal length) in E, E'. rewrite !length_app in *. cbn in *. lia. }
    rewrite <- app_assoc, Hfree, Href.
    unfold t1. now rewrite make_dirs_snoc.
Qed.

(** ** Paths *)

Lemma split_slash_one s :
  forallb (fun c => negb (c =? SLASH)) s = true -> split_slash s = [s].
Proof.
  induction s as [|c s IH]; [reflexivity|].
  cbn [forallb split_slash]. intros [Hc Hs]%andb_true_iff.
  apply negb_true_iff in Hc. now rewrite Hc, (IH Hs).
Qed.

(** A name without a slash that is neither empty nor ["."] is one
    segment, without a root. *)
Lemma Path_of_name name :
  forallb (fun c => negb (c =? SLASH)) name = true ->
  name <> [] -> name <> DOT ->
  Path_of name = {| root := []; parts := [name] |}.
Proof.
  intros Hs Hne Hdot. unfold Path_of, splitroot.
  destruct name as [|c name]; [easy|].
  pose proof Hs as Hc. cbn [forallb] in Hc.
  apply andb_true_iff in Hc as [Hc _]. apply negb_true_iff in Hc. rewrite Hc.
  rewrite (split_slash_one _ Hs). cbn [List.filter]. unfold is_segment.
  rewrite (bool_decide_eq_false_2 _ Hne), (bool_decide_eq_false_2 _ Hdot).
  reflexivity.
Qed.

Lemma Path_div_name dir name :
  forallb (fun c => negb (c =? SLASH)) name = true ->
  name <> [] -> name <> DOT ->
  Path_div dir name = {| root := root dir; parts := parts dir ++ [name] |}.
Proof.
  intros Hs Hne Hdot. unfold Path_div. now rewrite (Path_of_name _ Hs Hne Hdot).
Qed.

Lemma Path_parent_snoc r segs name :
  Path_parent {| root := r; parts := segs ++ [name] |}
  = {| root := r; parts := segs |}.
Proof. unfold Path_parent. cbn [root parts]. now rewrite removelast_last. Qed.

Section PathFacts.
Context `{UnicodeData}.

Lemma is_word_not_slash c : is_word c = true -> (c =? SLASH) = false.
Proof.
  intros Hw. destruct (c =? SLASH) eqn:E; [|reflexivity].
  apply Z.eqb_eq in E. subst c. discriminate Hw.
Qed.

Lemma filename_no_slash query :
  forallb (fun c => negb (c =? SLASH)) (filename query) = true.
Proof.
  unfold filename. rewrite forallb_app. apply andb_true_iff. split; [|reflexivity].
  pose proof (safe_filename_word query) as Hw. revert Hw.
  generalize (safe_filename query). intros l.
  induction l as [|c l IH]; [reflexivity|].
  cbn [forallb]. intros [Hc Hl]%andb_true_iff.
  now rewrite (is_word_not_slash _ Hc), (IH Hl).
Qed.

Lemma filename_length query : (4 <= length (filename query))%nat.
Proof. unfold filename. rewrite length_app. cbn. lia. Qed.

Lemma filename_is_name query :
  filename query <> [] /\ filename query <> DOT /\ filename query <> DOTDOT.
Proof.
  pose proof (filename_length query) as Hl.
  repeat split; intros E; rewrite E in Hl; cbn in Hl; lia.
Qed.

(** The output path is the file name inside the output directory. *)
Lemma output_path_eq output_dir query :
  Path_div (Path_of output_dir) (filename query)
  = {| root := root (Path_of output_dir);
       parts := parts (Path_of output_dir) ++ [filename query] |}.
Proof.
  destruct (filename_is_name query) as (Hne & Hdot & _).
  apply Path_div_name; auto using filename_no_slash.
Qed.

(** Its parent is the output directory. *)
Lemma output_path_parent output_dir query :
  Path_parent (Path_div (Path_of output_dir) (filename query))
  = Path_of output_dir.
Proof.
  rewrite output_path_eq, Path_parent_snoc. now destruct (Path_of output_dir).
Qed.

End PathFacts.

(** ** Saving *)

Lemma make_dirs_keeps t d missing :
  absent_below t d missing ->
  forall l n, t l = Some n -> make_dirs t d missing l = Some n.
Proof.
  intros Habs l n Hl. rewrite make_dirs_elsewhere; [exact Hl|].
  intros pre suf E Hpre ->. destruct pre as [|x pre]; [easy|].
  subst missing. cbn in Habs. now rewrite (Habs pre) in Hl.
Qed.

(** [mkdir(parents=True, exist_ok=True)] of a directory that can be made
    makes what is missing of it. *)
Lemma mkdir_parents_ok w dir d existing missing name :
  can_save w dir d existing missing name ->
  mkdir_parents true (root dir) (rev (parts dir)) w
  = (Ret tt, set_fs w (make_dirs (fs w) d missing)).
Proof.
  intros (Hparts & Hwalk & Hnames & Habs & Href & _).
  destruct missing as [|m missing].
  - rewrite mkdir_parents_existing; [now rewrite set_fs_id|].
    unfold is_dir. now rewrite Hparts, app_nil_r, Hwalk.
  - rewrite Hparts. now apply mkdir_parents_creates.
Qed.

(** Then the file can be opened for writing in it. *)
Lemma os_open_wb_ok w dir d existing missing name :
  can_save w dir d existing missing name ->
  name <> DOTDOT ->
  let t := make_dirs (fs w) d missing in
  exists t',
    os_open_wb (set_fs w t) {| root := root dir; parts := parts dir ++ [name] |}
    = Ok (d ++ missing ++ [name], t') /\
    forall l, t' l = tree_set t (d ++ missing ++ [name]) (File []) l.
Proof.
  intros (Hparts & Hwalk & Hnames & Habs & Href & Hfile) Hname t.
  unfold os_open_wb. cbn [parts fs set_fs refused]. rewrite unsnoc_snoc.
  change (start (set_fs w t) _) with (start w dir).
  rewrite Hparts, walk_app.
  rewrite (walk_mono (fs w) t (make_dirs_keeps _ _ _ Habs) _ _ _ Hwalk).
  unfold t at 1. rewrite (walk_make_dirs _ _ _ Hnames).
  rewrite bool_decide_eq_false_2 by exact Hname.
  assert (Ht : t (d ++ missing ++ [name]) = fs w (d ++ missing ++ [name])).
  { unfold t. apply make_dirs_elsewhere.
    intros pre suf E Hpre E'. apply app_inv_head in E'.
    apply (f_equal length) in E, E'. rewrite !length_app in *. cbn in *. lia. }
  rewrite <- app_assoc, Ht, Href.
  destruct (fs w (d ++ missing ++ [name])) as [[|c]|]; [easy|eauto..].
Qed.

Section Saving.
Context `{UnicodeData}.

(** A download whose response is fine and whose directory can be made
    succeeds: the directory is made, then the file is written in it. *)
Lemma download_audio_saves token query output_dir w response d existing missing :
  net w (audio_request token) = Some response ->
  ok_status response = true ->
  can_save w (Path_of output_dir) d existing missing (filename query) ->
  let output_path := Path_div (Path_of output_dir) (filename query) in
  let r := download_audio token query output_dir w in
  fst r = Ret true /\
  log (snd r)
  = log w ++ [EPrint (DownloadingAudio query); EGet (audio_request token);
              EMkdir (Path_of output_dir); EOpen output_path;
              EWrite output_path (content response);
              EPrint (SuccessfullySaved output_path)] /\
  (forall l, fs (snd r) l
             = saved_tree (fs w) d missing (filename query) (content response) l).
Proof.
  intros Hnet Hok Hsave output_path r. subst r.
  rewrite download_audio_run, Hnet, Hok. cbn zeta.
  rewrite save_audio_run. cbn zeta. rewrite output_path_parent.
  set (w1 := add_event (EMkdir _) _).
  rewrite (mkdir_parents_ok w1 _ _ _ _ _ Hsave).
  destruct (filename_is_name query) as (_ & _ & Hname).
  destruct (os_open_wb_ok w1 _ _ _ _ _ Hsave Hname) as (t' & E & Ht').
  cbn zeta in E. rewrite <- (output_path_eq output_dir query) in E.
  fold output_path in E |- *. rewrite E.
  cbn [fst snd log fs set_fs add_event]. subst w1. cbn [log add_event].
  split; [reflexivity|]. split; [now rewrite <- !app_assoc|].
  intros l. unfold saved_tree.
  destruct (decide (l = d ++ missing ++ [filename query])) as [->|Hl].
  - now rewrite !tree_set_eq.
  - rewrite !tree_set_ne by exact Hl. rewrite Ht'. now apply tree_set_ne.
Qed.

(** What a run of [main] is. *)
Lemma main_run query output_dir w :
  main query output_dir w
  = match get_audio_token query w with
    | (Raise e, w1) => (Raise e, w1)
    | (Ret None, w1) | (Ret (Some []), w1) => (Raise (SystemExit 1), w1)
    | (Ret (Some token), w1) =>
        match download_audio token query output_dir
                (add_event (EPrint (FoundAudioToken token)) w1) with
        | (Raise e, w2) => (Raise e, w2)
        | (Ret true, w2) => (Ret tt, add_event (EPrint Done) w2)
        | (Ret false, w2) => (Raise (SystemExit 1), w2)
        end
    end.
Proof.
  unfold main, bind at 1.
  destruct (get_audio_token query w) as [[[[|c token]|]|e] w1]; try reflexivity.
  unfold bind, print, emit, sys_exit, raise.
  destruct (download_audio _ _ _ _) as [[[|]|e] w2]; reflexivity.
Qed.

End Saving.

(** ** Frames *)

Lemma logged_nil w : logged w w [].
Proof. unfold logged. rewrite app_nil_r. now destruct w. Qed.

Lemma logged_add w w' l e : logged w w' l -> logged w (add_event e w') (l ++ [e]).
Proof. unfold logged. intros ->. unfold add_event. cbn. now rewrite app_assoc. Qed.

Section Frames.
Context `{UnicodeData}.

(** The resolver touches nothing but the log, where it leaves no file
    system call and at most its own request. *)
Lemma get_audio_token_frame query w :
  exists l,
    logged w (snd (get_audio_token query w)) l /\
    fs_calls_of l = [] /\
    (forall e, quote (strip query) = Some e -> requests_of l = [page_request e]) /\
    (quote (strip query) = None -> l = []).
Proof.
  destruct (quote (strip query)) as [e|] eqn:Hq.
  - rewrite (get_audio_token_run _ _ _ Hq). cbn zeta.
    assert (H1 : logged w (add_event (EGet (page_request e)) w) ([] ++ [EGet (page_request e)]))
      by apply logged_add, logged_nil.
    cbn [app] in H1.
    destruct (net w (page_request e)) as [response|].
    + destruct (ok_status response).
      * destruct (re_search pattern (text response)); cbn [snd].
        -- exists [EGet (page_request e)]. repeat split; try easy.
           now intros e' [= <-].
        -- eexists. split; [apply logged_add, H1|]. repeat split; try easy.
           now intros e' [= <-].
      * eexists. split; [apply logged_add, H1|]. repeat split; try easy.
        now intros e' [= <-].
    + eexists. split; [apply logged_add, H1|]. repeat split; try easy.
      now intros e' [= <-].
  - rewrite (get_audio_token_unencodable _ _ Hq). exists []. cbn [snd].
    repeat split; try easy. apply logged_nil.
Qed.

End Frames.

(** ** Encoding *)

Lemma utf8_encode_char_scalar c :
  is_scalar_value c = true -> exists b, utf8_encode_char c = Some b.
Proof.
  unfold is_scalar_value, utf8_encode_char, in_range.
  intros [[H0 H1]%andb_true_iff Hs%negb_true_iff]%andb_true_iff.
  apply Z.leb_le in H0, H1.
  destruct (c <? 0) eqn:E0; [apply Z.ltb_lt in E0; lia|].
  destruct (c <? 128); [eauto|]. destruct (c <? 2048); [eauto|].
  destruct (c <? 65536); [rewrite Hs; eauto|].
  destruct (c <? 1114112) eqn:E; [eauto|]. apply Z.ltb_ge in E. lia.
Qed.

(** Text without surrogates can be percent-encoded. *)
Lemma quote_scalar s :
  forallb is_scalar_value s = true -> exists e, quote s = Some e.
Proof.
  intros Hs. unfold quote.
  assert (Hu : exists bs, utf8_encode s = Some bs).
  { induction s as [|c s IH]; [now exists []|].
    cbn [forallb] in Hs. apply andb_true_iff in Hs as [Hc Hs].
    destruct (utf8_encode_char_scalar _ Hc) as [b Hb].
    destruct (IH Hs) as [bs Hbs]. cbn [utf8_encode]. rewrite Hb, Hbs. eauto. }
  destruct Hu as [bs ->]. eauto.
Qed.

(** * The claims *)

(** ** C1: the derived file name *)

(** C1, as stated, fails on an underscore: the query [a_b] gets the file
    name [a_b.mp3], while stripping every character that is not
    alphanumeric, whitespace or hyphen gives [ab.mp3]. *)
Lemma C1_underscore_is_kept :
  @filename latin1 (str_of "a_b") = str_of "a_b.mp3" /\
  @spec_filename latin1 (str_of "a_b") = str_of "ab.mp3" /\
  @filename latin1 (str_of "a_b") <> @spec_filename latin1 (str_of "a_b").
Proof. repeat split. vm_compute. discriminate. Qed.

(** C1, amended: for every query the file name is computed by trimming
    the query, stripping every character that is not a word character
    (alphanumeric or underscore), whitespace or hyphen, collapsing every
    run of hyphens and whitespace into one underscore, and appending
    [.mp3]; so its stem holds alphanumerics and underscores only, whatever
    the query contains. *)
Theorem C1_filename_derivation `{UnicodeData} (query : str) :
  filename query = amended_filename query /\
  filename query = safe_filename query ++ str_of ".mp3" /\
  forallb (fun c => Py_UNICODE_ISALNUM c || (c =? UNDERSCORE))
    (safe_filename query) = true.
Proof.
  split; [apply filename_amended|]. split; [reflexivity|].
  exact (safe_filename_word query).
Qed.

(** The alphanumerics of the stem are those of the interpreter's Unicode
    tables: an accented letter stays as it is. *)
Example filename_cafe :
  @filename latin1 ([99; 97; 102; 233] ++ str_of ", mon ami!")
  = [99; 97; 102; 233] ++ str_of "_mon_ami.mp3".
Proof. reflexivity. Qed.

(** ** C2: the first quoted token *)

(** C2: on a successful page fetch the resolver returns the first quoted
    token of the response body; in particular, when the body holds
    [data-audio="C/BNUT8S5S2HDK"] after a text without quoted tokens, it
    returns [C/BNUT8S5S2HDK], whatever follows. *)
Theorem C2_first_token_wins `{UnicodeData} (query : str) (w : world)
    (e : str) (page : Response) :
  quote (strip query) = Some e ->
  net w (page_request e) = Some page ->
  ok_status page = true ->
  (forall pre tok post,
     first_quoted (text page) pre tok post ->
     fst (get_audio_token query w) = Ret (Some tok)) /\
  (forall pre post,
     no_quoted_token pre ->
     text page = pre ++ DATA_AUDIO_EXAMPLE ++ post ->
     fst (get_audio_token query w) = Ret (Some TOKEN_EXAMPLE)).
Proof.
  intros Hq Hnet Hok.
  assert (Hrun : forall tok,
            option_map group1 (re_search pattern (text page)) = Some tok ->
            fst (get_audio_token query w) = Ret (Some tok)).
  { intros tok Hs. rewrite (get_audio_token_run _ _ _ Hq), Hnet. cbn zeta.
    rewrite Hok. destruct (re_search pattern (text page)); [|discriminate].
    cbn in Hs. injection Hs as <-. reflexivity. }
  split.
  - intros pre tok post Hfirst. apply Hrun. exact (re_search_first _ _ _ _ Hfirst).
  - intros pre post Hno Hpage. apply Hrun. rewrite Hpage.
    exact (re_search_data_audio _ _ Hno).
Qed.

Lemma C2_first_token_wins_witness :
  fst (@get_audio_token latin1 (str_of " hello ")
         (example_world (str_of "hello") (ok_page EXAMPLE_PAGE) ok_audio))
  = Ret (Some TOKEN_EXAMPLE).
Proof.
  refine (proj2 (@C2_first_token_wins latin1 (str_of " hello ")
                   (example_world (str_of "hello") (ok_page EXAMPLE_PAGE) ok_audio)
                   (str_of "hello")
                   {| status_code := 200; text := EXAMPLE_PAGE; content := [] |}
                   _ _ _)
            (str_of "<a ")
            (str_of "> x=" ++ QUOTATION_MARK :: str_of "D/X9" ++ [QUOTATION_MARK])
            _ _).
  - vm_compute. reflexivity.
  - vm_compute. reflexivity.
  - vm_compute. reflexivity.
  - apply (@re_search_none_inv latin1). vm_compute. reflexivity.
  - vm_compute. reflexivity.
Defined.

(** ** C3: no token on the page *)

(** C3: when the fetched page holds no quoted token, the resolver returns
    [None] (it raises nothing), and the process exits with status 1 after
    the page request alone: no audio request is sent. *)
Theorem C3_not_found `{UnicodeData} (query output_dir : str) (w : world)
    (e : str) (page : Response) :
  quote (strip query) = Some e ->
  net w (page_request e) = Some page ->
  ok_status page = true ->
  no_quoted_token (text page) ->
  fst (get_audio_token query w) = Ret None /\
  exit_status (fst (main query output_dir w)) = 1 /\
  log (snd (main query output_dir w))
  = log w ++ [EGet (page_request e); EPrint (NoAudioTokenFound query)] /\
  requests_of (log (snd (main query output_dir w)))
  = requests_of (log w) ++ [page_request e].
Proof.
  intros Hq Hnet Hok Hno.
  assert (E : get_audio_token query w
              = (Ret None,
                 add_event (EPrint (NoAudioTokenFound query))
                   (add_event (EGet (page_request e)) w))).
  { rewrite (get_audio_token_run _ _ _ Hq), Hnet. cbn zeta.
    now rewrite Hok, (re_search_none _ Hno). }
  rewrite main_run, E. cbn [fst snd exit_status log add_event].
  rewrite <- !app_assoc. cbn [app]. repeat split.
  now rewrite requests_of_app.
Qed.

Lemma C3_not_found_witness :
  let w := example_world (str_of "zzz") (ok_page (str_of "<html>no audio</html>"))
             ok_audio in
  fst (@get_audio_token latin1 (str_of "zzz") w) = Ret None /\
  exit_status (fst (@main latin1 (str_of "zzz") (str_of "out") w)) = 1 /\
  requests_of (log (snd (@main latin1 (str_of "zzz") (str_of "out") w)))
  = [page_request (str_of "zzz")].
Proof.
  intros w.
  destruct (@C3_not_found latin1 (str_of "zzz") (str_of "out") w (str_of "zzz")
              {| status_code := 200; text := str_of "<html>no audio</html>";
                 content := [] |})
    as (H1 & H2 & _ & H4).
  - vm_compute. reflexivity.
  - vm_compute. reflexivity.
  - vm_compute. reflexivity.
  - apply (@re_search_none_inv latin1). vm_compute. reflexivity.
  - exact (conj H1 (conj H2 H4)).
Defined.

(** ** C4: the audio request fails *)

(** C4: when the resolver returned a token and the audio request gets no
    response, or one with an error status, the process exits with status
    1, the directory tree is as it was, and no file system call was made
    (neither the directory nor the file is created); in any run of the
    fetcher, a file system call is made only after a response whose
    status is fine. *)
Theorem C4_fetch_failure `{UnicodeData} (query output_dir token : str)
    (w w1 : world) :
  get_audio_token query w = (Ret (Some token), w1) ->
  (net w (audio_request token) = None \/
   exists response,
     net w (audio_request token) = Some response /\ ok_status response = false) ->
  exit_status (fst (main query output_dir w)) = 1 /\
  fs (snd (main query output_dir w)) = fs w /\
  fs_calls_of (log (snd (main query output_dir w))) = fs_calls_of (log w) /\
  (forall token' query' output_dir' w',
     fs_calls_of (log (snd (download_audio token' query' output_dir' w')))
     <> fs_calls_of (log w') ->
     exists response,
       net w' (audio_request token') = Some response /\
       ok_status response = true).
Proof.
  intros Hres Hfail.
  enough (Hmain : exit_status (fst (main query output_dir w)) = 1 /\
                  fs (snd (main query output_dir w)) = fs w /\
                  fs_calls_of (log (snd (main query output_dir w)))
                  = fs_calls_of (log w)).
  { destruct Hmain as (H1 & H2 & H3). repeat (split; [assumption|]).
    intros token' query' output_dir' w'. rewrite download_audio_run. cbn zeta.
    destruct (net w' (audio_request token')) as [response|].
    - destruct (ok_status response) eqn:Hok; [now eauto|].
      cbn [snd log add_event]. rewrite !fs_calls_of_app. cbn.
      now rewrite !app_nil_r.
    - cbn [snd log add_event]. rewrite !fs_calls_of_app. cbn.
      now rewrite !app_nil_r. }
  destruct (get_audio_token_frame query w) as (l & Hlog & Hcalls & _).
  rewrite Hres in Hlog. cbn [snd] in Hlog. unfold logged in Hlog.
  rewrite main_run, Hres.
  assert (Hw1 : fs w1 = fs w /\ fs_calls_of (log w1) = fs_calls_of (log w)).
  { rewrite Hlog. cbn [fs log]. rewrite fs_calls_of_app, Hcalls.
    now rewrite app_nil_r. }
  destruct Hw1 as [Hfs Hfc].
  destruct token as [|c token]; [easy|].
  rewrite download_audio_run. cbn zeta.
  assert (Hnet : net (add_event (EPrint (FoundAudioToken (c :: token))) w1) = net w)
    by now rewrite Hlog.
  rewrite Hnet.
  destruct Hfail as [->|(response & -> & ->)];
    cbn [fst snd exit_status fs log add_event];
    rewrite ?fs_calls_of_app, Hfc; cbn [fs_calls_of List.filter app];
    now rewrite ?app_nil_r.
Qed.

Lemma C4_fetch_failure_witness :
  let w := example_world (str_of "hello") (ok_page EXAMPLE_PAGE)
             (Some {| status_code := 404; text := []; content := [] |}) in
  exit_status (fst (@main latin1 (str_of "hello") (str_of "out") w)) = 1 /\
  fs (snd (@main latin1 (str_of "hello") (str_of "out") w)) = fs w /\
  fs_calls_of (log (snd (@main latin1 (str_of "hello") (str_of "out") w))) = [].
Proof.
  intros w.
  destruct (@C4_fetch_failure latin1 (str_of "hello") (str_of "out") TOKEN_EXAMPLE
              w (add_event (EGet (page_request (str_of "hello"))) w))
    as (H1 & H2 & H3 & _).
  - vm_compute. reflexivity.
  - right. eexists. split; vm_compute; reflexivity.
  - exact (conj H1 (conj H2 H3)).
Defined.

(** ** C5: file system errors *)

(** C5 does not hold of the code: an [OSError] of the directory creation
    (here [FileExistsError]: the output directory [notes] is a regular
    file) is not caught in [download_audio], which neither prints a
    message of its own nor returns [False]; the exception reaches the top
    level, where the interpreter ends the process with status 1. *)
Theorem C5_os_error_escapes :
  let w := example_world (str_of "hello") (ok_page EXAMPLE_PAGE) ok_audio in
  let notes := Path_of (str_of "notes") in
  fst (@download_audio latin1 TOKEN_EXAMPLE (str_of "hello") (str_of "notes") w)
  = Raise (OSError EEXIST) /\
  fst (@main latin1 (str_of "hello") (str_of "notes") w) = Raise (OSError EEXIST) /\
  exit_status (fst (@main latin1 (str_of "hello") (str_of "notes") w)) = 1 /\
  log (snd (@main latin1 (str_of "hello") (str_of "notes") w))
  = [EGet (page_request (str_of "hello")); EPrint (FoundAudioToken TOKEN_EXAMPLE);
     EPrint (DownloadingAudio (str_of "hello"));
     EGet (audio_request TOKEN_EXAMPLE); EMkdir notes].
Proof. vm_compute. repeat split. Qed.

(** ** C6: the request of the resolver *)

(** C6, as stated, fails on a query that UTF-8 cannot encode: for the
    lone surrogate U+DC80 (an undecodable byte of the command line) the
    resolver raises [UnicodeEncodeError] and sends no request. *)
Lemma C6_lone_surrogate :
  let w := example_world (str_of "hello") (ok_page EXAMPLE_PAGE) ok_audio in
  fst (@get_audio_token latin1 [0xDC80] w) = Raise UnicodeEncodeError /\
  requests_of (log (snd (@get_audio_token latin1 [0xDC80] w))) = [].
Proof. vm_compute. split; reflexivity. Qed.

(** C6, amended: for every query whose trimmed text UTF-8 can encode (it
    holds no lone surrogate), the resolver sends exactly one request: a
    GET of the dictionary base URL followed by the percent-encoded
    trimmed query, with the fixed browser headers and a timeout of 10. *)
Theorem C6_page_request `{UnicodeData} (query : str) (w : world) :
  forallb is_scalar_value (strip query) = true ->
  exists encoded_query,
    quote (strip query) = Some encoded_query /\
    requests_of (log (snd (get_audio_token query w)))
    = requests_of (log w)
      ++ [{| url := DICTIONARY_URL ++ encoded_query; timeout := 10;
             headers := Some HEADERS |}].
Proof.
  intros Hs. destruct (quote_scalar _ Hs) as [e Hq]. exists e.
  split; [exact Hq|].
  destruct (get_audio_token_frame query w) as (l & Hlog & _ & Hreq & _).
  unfold logged in Hlog. rewrite Hlog. cbn [log].
  now rewrite requests_of_app, (Hreq e Hq).
Qed.

Lemma C6_page_request_witness :
  exists encoded_query,
    quote (strip (str_of " machine learning ")) = Some encoded_query /\
    requests_of
      (log (snd (@get_audio_token latin1 (str_of " machine learning ")
                   (example_world (str_of "hello") None None))))
    = [] ++ [{| url := DICTIONARY_URL ++ encoded_query; timeout := 10;
                headers := Some HEADERS |}].
Proof.
  apply (@C6_page_request latin1 (str_of " machine learning ")
           (example_world (str_of "hello") None None)).
  vm_compute. reflexivity.
Defined.

(** The encoded query of the example. *)
Example quote_machine_learning :
  quote (strip (str_of " machine learning ")) = Some (str_of "machine%20learning").
Proof. reflexivity. Qed.

(** ** C7: the request of the fetcher *)

(** C7: for every token the fetcher sends exactly one request: a GET of
    the audio base URL followed by the token as it is and [.mp3], with a
    timeout of 30 and no headers of its own. *)
Theorem C7_audio_request `{UnicodeData} (token query output_dir : str) (w : world) :
  requests_of (log (snd (download_audio token query output_dir w)))
  = requests_of (log w)
    ++ [{| url := str_of "https://audio.vocabulary.com/1.0/us/" ++ token
                  ++ str_of ".mp3";
           timeout := 30; headers := None |}].
Proof.
  change {| url := _; timeout := 30; headers := None |} with (audio_request token).
  rewrite download_audio_run. cbn zeta.
  destruct (net w (audio_request token)) as [response|].
  - destruct (ok_status response).
    + match goal with |- context [save_audio ?p ?d ?w1] =>
        destruct (save_audio_outcome p d w1) as (l & -> & Hl & _)
      end.
      cbn [log add_event].
      now rewrite requests_of_app, Hl, app_nil_r, requests_of_get, requests_of_print.
    + cbn [snd log add_event].
      now rewrite requests_of_print, requests_of_get, requests_of_print.
  - cbn [snd log add_event].
    now rewrite requests_of_print, requests_of_get, requests_of_print.
Qed.

(** ** C8: the file name of "machine learning" *)

(** C8: for the query [machine learning] the file name is exactly
    [machine_learning.mp3]. *)
Theorem C8_machine_learning `{UnicodeData} :
  filename (str_of "machine learning") = str_of "machine_learning.mp3".
Proof. vm_compute. reflexivity. Qed.

(** ** C9: the output directory *)

(** C9: the fetcher makes the output directory, with every missing
    segment of its path, before it opens the file; making a directory
    that is there raises nothing; and on a successful run into an output
    directory whose last segments are missing, the file is at
    output directory / file name, with the payload as its content. *)
Theorem C9_output_directory `{UnicodeData} (token query output_dir : str)
    (w : world) (response : Response) (d : loc) (existing missing : list str) :
  net w (audio_request token) = Some response ->
  ok_status response = true ->
  can_save w (Path_of output_dir) d existing missing (filename query) ->
  let output_path := Path_div (Path_of output_dir) (filename query) in
  let r := download_audio token query output_dir w in
  fst r = Ret true /\
  fs_calls_of (log (snd r))
  = fs_calls_of (log w)
    ++ [EMkdir (Path_of output_dir); EOpen output_path;
        EWrite output_path (content response)] /\
  (forall pre suf, missing = pre ++ suf -> pre <> [] ->
     fs (snd r) (d ++ pre) = Some Dir) /\
  output_path
  = {| root := root (Path_of output_dir);
       parts := parts (Path_of output_dir) ++ [filename query] |} /\
  fs (snd r) (d ++ missing ++ [filename query]) = Some (File (content response)) /\
  (forall w', is_dir w' (Path_of output_dir) = true ->
     Path_mkdir (Path_of output_dir) true true w'
     = (Ret tt, add_event (EMkdir (Path_of output_dir)) w')).
Proof.
  intros Hnet Hok Hsave output_path r.
  destruct (download_audio_saves _ _ _ _ _ _ _ _ Hnet Hok Hsave)
    as (Hret & Hlog & Hfs).
  fold output_path r in Hret, Hlog, Hfs.
  split; [exact Hret|]. split.
  { rewrite Hlog, fs_calls_of_app. reflexivity. }
  split.
  { intros pre suf E Hpre. rewrite Hfs. unfold saved_tree.
    rewrite tree_set_ne; [now apply (make_dirs_made _ _ _ _ suf)|].
    intros E'. apply app_inv_head in E'. apply (f_equal length) in E, E'.
    rewrite !length_app in *. cbn in *. lia. }
  split; [apply output_path_eq|]. split.
  { rewrite Hfs. apply tree_set_eq. }
  intros w'. apply Path_mkdir_existing.
Qed.

Lemma C9_output_directory_witness :
  let w := example_world (str_of "hello") (ok_page EXAMPLE_PAGE) ok_audio in
  let r := @download_audio latin1 TOKEN_EXAMPLE (str_of "hello world")
             (str_of "out/audio") w in
  fst r = Ret true /\
  fs (snd r) (HOME ++ [str_of "out"]) = Some Dir /\
  fs (snd r) (HOME ++ [str_of "out"; str_of "audio"]) = Some Dir /\
  fs (snd r) (HOME ++ [str_of "out"; str_of "audio"; str_of "hello_world.mp3"])
  = Some (File EXAMPLE_AUDIO).
Proof.
  intros w r.
  destruct (@C9_output_directory latin1 TOKEN_EXAMPLE (str_of "hello world")
              (str_of "out/audio") w
              {| status_code := 200; text := []; content := EXAMPLE_AUDIO |}
              HOME [] [str_of "out"; str_of "audio"])
    as (H1 & _ & H3 & _ & H5 & _).
  - vm_compute. reflexivity.
  - vm_compute. reflexivity.
  - unfold can_save. split; [|split; [|split; [|split; [|split]]]].
    + vm_compute. reflexivity.
    + vm_compute. reflexivity.
    + repeat constructor; discriminate.
    + intros rest. vm_compute. reflexivity.
    + reflexivity.
    + vm_compute. discriminate.
  - split; [exact H1|]. split; [exact (H3 [str_of "out"] [str_of "audio"] eq_refl ltac:(discriminate))|].
    split; [exact (H3 [str_of "out"; str_of "audio"] [] eq_refl ltac:(discriminate))|].
    exact H5.
Defined.

(** ** C10: a query without a kept character *)

(** C10: for a query whose trimmed text holds no word character,
    whitespace or hyphen, the stem is empty and the file name is [.mp3];
    where the download and the directory are fine, the fetcher succeeds
    and the payload is the content of the file [.mp3] in the output
    directory. *)
Theorem C10_empty_stem `{UnicodeData} (token query output_dir : str)
    (w : world) (response : Response) (d : loc) (existing missing : list str) :
  forallb (fun c => negb (kept_with_underscore c)) (strip query) = true ->
  net w (audio_request token) = Some response ->
  ok_status response = true ->
  can_save w (Path_of output_dir) d existing missing (str_of ".mp3") ->
  let r := download_audio token query output_dir w in
  safe_filename query = [] /\
  filename query = str_of ".mp3" /\
  Path_div (Path_of output_dir) (filename query)
  = {| root := root (Path_of output_dir);
       parts := parts (Path_of output_dir) ++ [str_of ".mp3"] |} /\
  fst r = Ret true /\
  fs (snd r) (d ++ missing ++ [str_of ".mp3"]) = Some (File (content response)).
Proof.
  intros Hq Hnet Hok Hsave r.
  pose proof (filename_nothing_kept _ Hq) as Hname.
  assert (Hstem : safe_filename query = []).
  { unfold filename in Hname. now apply (app_inv_tail _ _ []) in Hname. }
  rewrite <- Hname in Hsave.
  destruct (download_audio_saves _ _ _ _ _ _ _ _ Hnet Hok Hsave)
    as (Hret & _ & Hfs).
  fold r in Hret, Hfs.
  split; [exact Hstem|]. split; [exact Hname|]. split.
  { rewrite output_path_eq. now rewrite Hname. }
  split; [exact Hret|].
  rewrite Hfs, <- Hname. apply tree_set_eq.
Qed.

Lemma C10_empty_stem_witness :
  let w := example_world (str_of "hello") (ok_page EXAMPLE_PAGE) ok_audio in
  let r := @download_audio latin1 TOKEN_EXAMPLE (str_of "!!!") (str_of ".") w in
  @filename latin1 (str_of "!!!") = str_of ".mp3" /\
  fst r = Ret true /\
  fs (snd r) (HOME ++ [str_of ".mp3"]) = Some (File EXAMPLE_AUDIO).
Proof.
  intros w r.
  destruct (@C10_empty_stem latin1 TOKEN_EXAMPLE (str_of "!!!") (str_of ".") w
              {| status_code := 200; text := []; content := EXAMPLE_AUDIO |}
              HOME [] [])
    as (_ & H2 & _ & H4 & H5).
  - vm_compute. reflexivity.
  - vm_compute. reflexivity.
  - vm_compute. reflexivity.
  - unfold can_save. split; [|split; [|split; [|split; [|split]]]].
    + vm_compute. reflexivity.
    + vm_compute. reflexivity.
    + constructor.
    + exact I.
    + reflexivity.
    + vm_compute. discriminate.
  - exact (conj H2 (conj H4 H5)).
Defined.

(** * Further properties of the code *)

(** ** The resolver *)

(** X1: whatever the query and the replies, [get_audio_token] leaves the
    directory tree and the working directory as they are, makes no file
    system call, and sends at most one request. *)
Theorem resolver_only_requests `{UnicodeData} (query : str) (w : world) :
  let w' := snd (get_audio_token query w) in
  fs w' = fs w /\
  cwd w' = cwd w /\
  fs_calls_of (log w') = fs_calls_of (log w) /\
  (length (requests_of (log w')) <= length (requests_of (log w)) + 1)%nat.
Proof.
  cbn zeta.
  destruct (get_audio_token_frame query w) as (l & Hlog & Hcalls & Hreq & Hnone).
  unfold logged in Hlog. rewrite Hlog. cbn [fs cwd log].
  rewrite fs_calls_of_app, Hcalls, app_nil_r, requests_of_app, length_app.
  repeat split.
  destruct (quote (strip query)) as [e|].
  - rewrite (Hreq e eq_refl). cbn. lia.
  - rewrite (Hnone eq_refl). cbn. lia.
Qed.

(** X2: when the page request gets no response, or one with an error
    status, [get_audio_token] catches the exception: it prints the error,
    returns [None], and [main] exits with status 1 after that one
    request, the tree unchanged. *)
Theorem page_fetch_failure `{UnicodeData} (query output_dir : str) (w : world) (e : str) :
  quote (strip query) = Some e ->
  (net w (page_request e) = None \/
   exists response,
     net w (page_request e) = Some response /\ ok_status response = false) ->
  fst (get_audio_token query w) = Ret None /\
  (exists err,
     log (snd (main query output_dir w))
     = log w ++ [EGet (page_request e); EPrint (ErrorFetchingPage query err)]) /\
  exit_status (fst (main query output_dir w)) = 1 /\
  fs (snd (main query output_dir w)) = fs w.
Proof.
  intros Hq Hfail. rewrite main_run, (get_audio_token_run _ _ _ Hq). cbn zeta.
  destruct Hfail as [->|(response & -> & ->)];
    cbn [fst snd exit_status fs log add_event]; rewrite <- !app_assoc;
    repeat split; eexists; reflexivity.
Qed.

Lemma page_fetch_failure_witness :
  let w := example_world (str_of "hello")
             (Some {| status_code := 503; text := []; content := [] |}) ok_audio in
  fst (@get_audio_token latin1 (str_of "hello") w) = Ret None /\
  exit_status (fst (@main latin1 (str_of "hello") (str_of "out") w)) = 1.
Proof.
  intros w.
  destruct (@page_fetch_failure latin1 (str_of "hello") (str_of "out") w
              (str_of "hello")) as (H1 & _ & H3 & _).
  - vm_compute. reflexivity.
  - right. eexists. split; vm_compute; reflexivity.
  - exact (conj H1 H3).
Defined.

(** Whatever the search finds is the first quoted token of the text. *)
Lemma re_search_some_first `{UnicodeData} : forall body m,
  re_search pattern body = Some m ->
  exists pre post, first_quoted body pre (group1 m) post.
Proof.
  induction body as [|c body IH]; intros m Hs; [discriminate|].
  rewrite re_search_unfold in Hs.
  destruct (rmatch pattern (None, None) (c :: body)) as [[rest caps]|] eqn:Hm.
  - injection Hs as <-.
    destruct (rmatch_pattern_inv _ _ _ _ Hm) as (tok & Ht & E).
    rewrite E, (rmatch_pattern_token _ _ _ Ht) in Hm. injection Hm as <-.
    exists [], rest. unfold group1. cbn [m_caps]. rewrite take_app_exact.
    split; [now split|]. intros; cbn; lia.
  - destruct (IH m Hs) as (pre & post & Hq & Hmin).
    exists (c :: pre), post. split; [now apply quoted_at_cons|].
    intros pre' tok' post' [Ht' E]. destruct pre' as [|c' pre'].
    + cbn [app] in E. rewrite E, (rmatch_pattern_token _ _ _ Ht') in Hm.
      discriminate.
    + injection E as <- E. specialize (Hmin pre' tok' post' (conj Ht' E)).
      cbn. lia.
Qed.

(** Text of unreserved characters and slashes is percent-encoded as
    itself. *)
Lemma quote_safe s :
  forallb (fun b => always_safe b || (b =? SLASH)) s = true -> quote s = Some s.
Proof.
  intros Hs. unfold quote.
  assert (Hu : utf8_encode s = Some s).
  { induction s as [|c s IH]; [reflexivity|].
    cbn [forallb] in Hs. apply andb_true_iff in Hs as [Hc Hs].
    cbn [utf8_encode]. rewrite (IH Hs).
    assert (Hr : 0 <= c < 128).
    { unfold always_safe, ascii_alnum, is_upper, is_lower, is_digit, in_range,
        SLASH in Hc. lia. }
    unfold utf8_encode_char.
    destruct (c <? 0) eqn:E0; [apply Z.ltb_lt in E0; lia|].
    destruct (c <? 128) eqn:E1; [reflexivity|]. apply Z.ltb_ge in E1. lia. }
  rewrite Hu. f_equal. clear Hu.
  induction s as [|c s IH]; [reflexivity|].
  cbn [forallb] in Hs. apply andb_true_iff in Hs as [Hc Hs].
  cbn [List.map concat]. rewrite (IH Hs).
  unfold quote_byte. now rewrite Hc.
Qed.

Lemma token_is_safe tok :
  is_token tok = true ->
  forallb (fun b => always_safe b || (b =? SLASH)) tok = true.
Proof.
  intros Ht. pose proof (token_in_quoted _ Ht) as Hq.
  assert (Hnq : forallb (fun c => negb (c =? QUOTATION_MARK)) tok = true).
  { destruct tok as [|l [|sl [|c run]]]; try discriminate.
    cbn [is_token] in Ht.
    apply andb_true_iff in Ht as [[Hl Hsl]%andb_true_iff Hrun].
    change (l :: sl :: c :: run) with ([l; sl] ++ c :: run).
    rewrite forallb_app. apply andb_true_iff. split.
    - cbn. unfold is_upper, in_range, SLASH, QUOTATION_MARK in *. lia.
    - revert Hrun. generalize (c :: run). clear. intros r.
      induction r as [|x r IH]; [reflexivity|]. cbn [forallb].
      intros [Hx Hr]%andb_true_iff. rewrite (IH Hr), andb_true_r.
      unfold is_token_char, is_upper, is_digit, in_range, QUOTATION_MARK in *.
      lia. }
  revert Hq Hnq. clear. induction tok as [|c tok IH]; [reflexivity|].
  cbn [forallb]. intros [Hc Hq]%andb_true_iff [Hn Hnq]%andb_true_iff.
  rewrite (IH Hq Hnq), andb_true_r.
  unfold in_quoted, is_token_char, always_safe, ascii_alnum in *.
  destruct (c =? QUOTATION_MARK); [discriminate|].
  destruct (is_upper c), (is_digit c), (c =? SLASH); try discriminate;
    now rewrite ?orb_true_r.
Qed.

(** X3: a token that [get_audio_token] returns was found, between
    quotation marks and before any other quoted token, on a page that was
    fetched with a fine status; it has the shape of a token (so it is not
    empty, and the test [if not token] of [main] fails on [None] only),
    and percent-encoding would leave it as it is. *)
Theorem resolved_token `{UnicodeData} (query : str) (w w1 : world) (token : str) :
  get_audio_token query w = (Ret (Some token), w1) ->
  exists e page pre post,
    quote (strip query) = Some e /\
    net w (page_request e) = Some page /\
    ok_status page = true /\
    first_quoted (text page) pre token post /\
    is_token token = true /\
    token <> [] /\
    quote token = Some token.
Proof.
  intros Hres. destruct (quote (strip query)) as [e|] eqn:Hq.
  2:{ rewrite (get_audio_token_unencodable _ _ Hq) in Hres. discriminate. }
  rewrite (get_audio_token_run _ _ _ Hq) in Hres. cbn zeta in Hres.
  destruct (net w (page_request e)) as [page|] eqn:Hnet; [|discriminate].
  destruct (ok_status page) eqn:Hok; [|discriminate].
  destruct (re_search pattern (text page)) as [m|] eqn:Hs; [|discriminate].
  injection Hres as <- _.
  destruct (re_search_some_first _ _ Hs) as (pre & post & Hfirst).
  pose proof Hfirst as [[Ht _] _].
  exists e, page, pre, post.
  split; [reflexivity|]. split; [exact Hnet|]. split; [exact Hok|].
  split; [exact Hfirst|]. split; [exact Ht|]. split.
  - intros E. rewrite E in Ht. discriminate.
  - apply quote_safe, token_is_safe, Ht.
Qed.

Lemma resolved_token_witness :
  exists e page pre post,
    quote (strip (str_of " hello ")) = Some e /\
    net (example_world (str_of "hello") (ok_page EXAMPLE_PAGE) ok_audio)
      (page_request e) = Some page /\
    ok_status page = true /\
    first_quoted (text page) pre TOKEN_EXAMPLE post /\
    is_token TOKEN_EXAMPLE = true /\
    TOKEN_EXAMPLE <> [] /\
    quote TOKEN_EXAMPLE = Some TOKEN_EXAMPLE.
Proof.
  apply (@resolved_token latin1 (str_of " hello ")
           (example_world (str_of "hello") (ok_page EXAMPLE_PAGE) ok_audio)
           (add_event (EGet (page_request (str_of "hello")))
              (example_world (str_of "hello") (ok_page EXAMPLE_PAGE) ok_audio))).
  vm_compute. reflexivity.
Defined.

(** X4: on a page fetched with a fine status, [get_audio_token] returns
    [None] exactly when the page holds no quoted token: it misses none. *)
Theorem not_found_iff `{UnicodeData} (query : str) (w : world) (e : str) (page : Response) :
  quote (strip query) = Some e ->
  net w (page_request e) = Some page ->
  ok_status page = true ->
  (fst (get_audio_token query w) = Ret None <-> no_quoted_token (text page)).
Proof.
  intros Hq Hnet Hok. rewrite (get_audio_token_run _ _ _ Hq), Hnet. cbn zeta.
  rewrite Hok. split.
  - destruct (re_search pattern (text page)) eqn:Hs; [discriminate|].
    intros _. now apply re_search_none_inv.
  - intros Hno. now rewrite (re_search_none _ Hno).
Qed.

Lemma not_found_iff_witness :
  fst (@get_audio_token latin1 (str_of "zzz")
         (example_world (str_of "zzz") (ok_page (str_of "<p>none</p>")) ok_audio))
  = Ret None
  <-> no_quoted_token (str_of "<p>none</p>").
Proof.
  apply (@not_found_iff latin1 (str_of "zzz")
           (example_world (str_of "zzz") (ok_page (str_of "<p>none</p>")) ok_audio)
           (str_of "zzz")
           {| status_code := 200; text := str_of "<p>none</p>"; content := [] |});
    vm_compute; reflexivity.
Defined.

(** ** Queries *)

Lemma drop_run_none cs s :
  forallb (fun c => negb (cs c)) s = true -> drop_run cs s = s.
Proof.
  destruct s as [|c s]; [reflexivity|]. cbn [forallb drop_run].
  intros [Hc _]%andb_true_iff. apply negb_true_iff in Hc. now rewrite Hc.
Qed.

Lemma drop_run_whole cs s : forallb cs s = true -> drop_run cs s = [].
Proof.
  induction s as [|c s IH]; [reflexivity|].
  cbn. intros [Hc Hs]%andb_true_iff. rewrite Hc. auto.
Qed.

Lemma drop_run_nil_inv cs s : drop_run cs s = [] -> forallb cs s = true.
Proof.
  induction s as [|c s IH]; [reflexivity|].
  cbn. destruct (cs c); [exact IH|discriminate].
Qed.

Lemma drop_run_app_run cs ws s :
  forallb cs ws = true -> drop_run cs (ws ++ s) = drop_run cs s.
Proof.
  induction ws as [|c ws IH]; [reflexivity|].
  cbn. intros [Hc Hws]%andb_true_iff. rewrite Hc. auto.
Qed.

Lemma drop_run_app_rest cs s t :
  drop_run cs s <> [] -> drop_run cs (s ++ t) = drop_run cs s ++ t.
Proof.
  induction s as [|c s IH]; [easy|].
  cbn. destruct (cs c); [exact IH|reflexivity].
Qed.

Lemma forallb_rev_true (f : Z -> bool) s :
  forallb f s = true -> forallb f (rev s) = true.
Proof.
  intros Hs. apply forallb_forall. intros x Hx%in_rev.
  revert x Hx. now apply forallb_forall.
Qed.

Lemma rstrip_app_space s ws :
  forallb Py_UNICODE_ISSPACE ws = true -> rstrip (s ++ ws) = rstrip s.
Proof.
  intros Hws. unfold rstrip, lstrip. rewrite rev_app_distr.
  now rewrite drop_run_app_run by now apply forallb_rev_true.
Qed.

(** Whitespace around a text is stripped with the text's own. *)
Lemma strip_padding ws1 s ws2 :
  forallb Py_UNICODE_ISSPACE ws1 = true ->
  forallb Py_UNICODE_ISSPACE ws2 = true ->
  strip (ws1 ++ s ++ ws2) = strip s.
Proof.
  intros H1 H2. unfold strip, lstrip.
  rewrite (drop_run_app_run _ _ _ H1).
  destruct (drop_run Py_UNICODE_ISSPACE s) as [|c t] eqn:E.
  - apply drop_run_nil_inv in E.
    rewrite drop_run_whole; [reflexivity|].
    rewrite forallb_app. now rewrite E, H2.
  - rewrite drop_run_app_rest by now rewrite E.
    rewrite E. now apply rstrip_app_space.
Qed.

(** A text without whitespace is its own trimmed text. *)
Lemma strip_no_space s :
  forallb (fun c => negb (Py_UNICODE_ISSPACE c)) s = true -> strip s = s.
Proof.
  intros Hs. unfold strip, rstrip, lstrip.
  rewrite (drop_run_none _ _ Hs), drop_run_none by now apply forallb_rev_true.
  apply rev_involutive.
Qed.

Lemma filter_all (f : Z -> bool) s :
  forallb f s = true -> List.filter f s = s.
Proof.
  induction s as [|c s IH]; [reflexivity|].
  cbn. intros [Hc Hs]%andb_true_iff. now rewrite Hc, (IH Hs).
Qed.

Lemma collapse_runs_none sep s :
  forallb (fun c => negb (sep c)) s = true -> collapse_runs sep s = s.
Proof.
  induction s as [|c s IH]; [reflexivity|].
  cbn [forallb]. intros [Hc Hs]%andb_true_iff. apply negb_true_iff in Hc.
  rewrite collapse_runs_cons, Hc. now rewrite (IH Hs).
Qed.

(** A kept character that is no separator: what a stem is made of. *)
Definition is_stem_char `{UnicodeData} (c : Z) : bool :=
  kept_with_underscore c && negb (is_separator c).

Lemma forallb_impl (f g : Z -> bool) s :
  (forall c, f c = true -> g c = true) ->
  forallb f s = true -> forallb g s = true.
Proof.
  intros Hfg. induction s as [|c s IH]; [reflexivity|].
  cbn. intros [Hc Hs]%andb_true_iff. now rewrite (Hfg _ Hc), (IH Hs).
Qed.

(** A text of stem characters is its own stem. *)
Lemma safe_filename_fixed `{UnicodeData} s :
  forallb is_stem_char s = true -> safe_filename s = s.
Proof.
  intros Hs. rewrite safe_filename_eq.
  assert (Hk : forallb kept_with_underscore s = true).
  { revert Hs. apply forallb_impl. unfold is_stem_char.
    now intros c [Hc _]%andb_true_iff. }
  assert (Hn : forallb (fun c => negb (is_separator c)) s = true).
  { revert Hs. apply forallb_impl. unfold is_stem_char.
    now intros c [_ Hc]%andb_true_iff. }
  rewrite strip_no_space.
  - now rewrite (filter_all _ _ Hk), (collapse_runs_none _ _ Hn).
  - revert Hn. apply forallb_impl. intros c Hc%negb_true_iff.
    unfold is_separator in Hc. apply orb_false_iff in Hc as [_ ->]. reflexivity.
Qed.

Lemma collapse_runs_stem `{UnicodeData} s :
  forallb kept_with_underscore s = true ->
  forallb is_stem_char (collapse_runs is_separator s) = true.
Proof.
  assert (HU : is_stem_char UNDERSCORE = true) by reflexivity.
  induction s as [|c s IH]; [reflexivity|].
  cbn [forallb]. intros [Hc Hs]%andb_true_iff. specialize (IH Hs).
  rewrite collapse_runs_cons. destruct (is_separator c) eqn:Hsep.
  - destruct s as [|c' s]; [cbn [forallb]; now rewrite HU|].
    destruct (is_separator c'); [exact IH|].
    cbn [forallb]. now rewrite HU, IH.
  - cbn [forallb]. rewrite IH, andb_true_r.
    unfold is_stem_char. now rewrite Hc, Hsep.
Qed.

(** X5: the stem of a file name is its own stem: deriving a name from a
    derived stem changes nothing. *)
Theorem safe_filename_idempotent `{UnicodeData} (query : str) :
  safe_filename (safe_filename query) = safe_filename query /\
  filename (safe_filename query) = filename query.
Proof.
  assert (E : safe_filename (safe_filename query) = safe_filename query).
  { apply safe_filename_fixed. rewrite safe_filename_eq.
    apply collapse_runs_stem, forallb_filter. }
  split; [exact E|]. unfold filename. now rewrite E.
Qed.

(** X6: whitespace before and after the query is ignored: the padded
    query has the file name of the query, the resolver sends the same
    requests for it and returns the same result. *)
Theorem padding_is_ignored `{UnicodeData} (query ws1 ws2 : str) (w : world) :
  forallb Py_UNICODE_ISSPACE ws1 = true ->
  forallb Py_UNICODE_ISSPACE ws2 = true ->
  let padded := ws1 ++ query ++ ws2 in
  filename padded = filename query /\
  fst (get_audio_token padded w) = fst (get_audio_token query w) /\
  requests_of (log (snd (get_audio_token padded w)))
  = requests_of (log (snd (get_audio_token query w))).
Proof.
  intros H1 H2 padded. pose proof (strip_padding _ query _ H1 H2) as E.
  fold padded in E. split.
  { unfold filename, safe_filename. now rewrite E. }
  destruct (quote (strip query)) as [e|] eqn:Hq.
  - assert (Hq' : quote (strip padded) = Some e) by now rewrite E.
    rewrite (get_audio_token_run _ _ _ Hq), (get_audio_token_run _ _ _ Hq').
    cbn zeta. destruct (net w (page_request e)) as [page|].
    + destruct (ok_status page).
      * destruct (re_search pattern (text page)); cbn [fst snd log add_event];
          now rewrite ?requests_of_print.
      * cbn [fst snd log add_event]. now rewrite !requests_of_print.
    + cbn [fst snd log add_event]. now rewrite !requests_of_print.
  - assert (Hq' : quote (strip padded) = None) by now rewrite E.
    now rewrite (get_audio_token_unencodable _ _ Hq),
      (get_audio_token_unencodable _ _ Hq').
Qed.

Lemma padding_is_ignored_witness :
  @filename latin1 (str_of "  " ++ str_of "machine learning" ++ [10])
  = @filename latin1 (str_of "machine learning").
Proof.
  exact (proj1 (@padding_is_ignored latin1 (str_of "machine learning")
                  (str_of "  ") [10]
                  (example_world (str_of "hello") None None)
                  eq_refl eq_refl)).
Defined.

(** X7: a query of ASCII letters, digits and underscores is used as it
    is: the page is requested at the base URL followed by the query, and
    the file name is the query followed by [.mp3]. *)
Theorem plain_query_as_is `{UnicodeData} (query : str) (w : world) :
  forallb (fun c => ascii_alnum c || (c =? UNDERSCORE)) query = true ->
  filename query = query ++ str_of ".mp3" /\
  requests_of (log (snd (get_audio_token query w)))
  = requests_of (log w)
    ++ [{| url := DICTIONARY_URL ++ query; timeout := 10;
           headers := Some HEADERS |}].
Proof.
  intros Hq.
  assert (Hstem : forallb is_stem_char query = true).
  { revert Hq. apply forallb_impl. intros c Hc.
    unfold is_stem_char, kept_with_underscore, is_word, Py_UNICODE_ISALNUM,
      is_separator.
    assert (Hr : 0 <= c < 128).
    { unfold ascii_alnum, is_upper, is_lower, is_digit, in_range, UNDERSCORE in Hc.
      lia. }
    destruct (c <? 128) eqn:E; [|apply Z.ltb_ge in E; lia].
    rewrite Hc. cbn [orb andb]. apply negb_true_iff, orb_false_iff.
    unfold Py_UNICODE_ISSPACE, ascii_alnum, is_upper, is_lower, is_digit,
      in_range, HYPHEN, UNDERSCORE in *. lia. }
  split.
  { unfold filename. now rewrite (safe_filename_fixed _ Hstem). }
  assert (Hstrip : strip query = query).
  { apply strip_no_space. revert Hstem. apply forallb_impl.
    intros c [_ Hc%negb_true_iff]%andb_true_iff.
    unfold is_separator in Hc. apply orb_false_iff in Hc as [_ ->]. reflexivity. }
  assert (Hquote : quote (strip query) = Some query).
  { rewrite Hstrip. apply quote_safe. revert Hq. apply forallb_impl.
    intros c Hc. unfold always_safe.
    apply orb_true_iff in Hc as [->|Hc]; [reflexivity|].
    unfold UNDERSCORE in Hc. now rewrite Hc, !orb_true_r. }
  destruct (get_audio_token_frame query w) as (l & Hlog & _ & Hreq & _).
  unfold logged in Hlog. rewrite Hlog. cbn [log].
  now rewrite requests_of_app, (Hreq _ Hquote).
Qed.

Lemma plain_query_as_is_witness :
  @filename latin1 (str_of "Capricorn") = str_of "Capricorn" ++ str_of ".mp3" /\
  requests_of
    (log (snd (@get_audio_token latin1 (str_of "Capricorn")
                 (example_world (str_of "hello") None None))))
  = [] ++ [{| url := DICTIONARY_URL ++ str_of "Capricorn"; timeout := 10;
              headers := Some HEADERS |}].
Proof.
  apply (@plain_query_as_is latin1 (str_of "Capricorn")
           (example_world (str_of "hello") None None)).
  vm_compute. reflexivity.
Defined.

(** ** The fetcher and the directory tree *)

(** Two nodes of one kind: both directories, or both files. *)
Definition same_kind (n n' : node) : bool :=
  match n, n' with
  | Dir, Dir => true
  | File _, File _ => true
  | _, _ => false
  end.

(** Every entry of [t] is an entry of [t']. *)
Definition extends (t t' : tree) : Prop :=
  forall l n, t l = Some n -> t' l = Some n.

Lemma extends_refl t : extends t t.
Proof. now intros l n. Qed.

Lemma extends_trans t1 t2 t3 : extends t1 t2 -> extends t2 t3 -> extends t1 t3.
Proof. intros H12 H23 l n Hl. auto. Qed.

Lemma extends_set t l n : t l = None -> extends t (tree_set t l n).
Proof.
  intros Hl l' n' Hl'. rewrite tree_set_ne; [exact Hl'|]. now intros ->; rewrite Hl in Hl'.
Qed.

(** A walk sees the directories only. *)
Lemma walk_dirs (t t' : tree) :
  (forall l, t l = Some Dir -> t' l = Some Dir) ->
  forall segs cur d, walk t cur segs = Ok d -> walk t' cur segs = Ok d.
Proof.
  intros Hsub. induction segs as [|s segs IH]; intros cur d; [easy|].
  cbn [walk]. destruct (bool_decide (s = DOTDOT)); [apply IH|].
  destruct (t (cur ++ [s])) as [[|c]|] eqn:E; try discriminate.
  rewrite (Hsub _ E). apply IH.
Qed.

(** What a successful [os.mkdir] did. *)
Lemma os_mkdir_ok_inv w p t :
  os_mkdir w p = Ok t ->
  exists init name d,
    parts p = init ++ [name] /\
    walk (fs w) (start w p) init = Ok d /\
    name <> DOTDOT /\
    fs w (d ++ [name]) = None /\
    t = tree_set (fs w) (d ++ [name]) Dir.
Proof.
  unfold os_mkdir.
  destruct (unsnoc (parts p)) as [[init name]|] eqn:E; [|discriminate].
  apply unsnoc_inv in E.
  destruct (walk (fs w) (start w p) init) as [d|e] eqn:Hw; [|discriminate].
  destruct (bool_decide (name = DOTDOT)) eqn:Hn; [discriminate|].
  apply bool_decide_eq_false in Hn.
  destruct (fs w (d ++ [name])) eqn:Hl; [discriminate|].
  destruct (refused w (d ++ [name])); [discriminate|].
  intros [= <-]. now exists init, name, d.
Qed.

Lemma os_mkdir_ok_post w p t :
  os_mkdir w p = Ok t -> extends (fs w) t /\ is_dir (set_fs w t) p = true.
Proof.
  intros (init & name & d & Hp & Hw & Hn & Hl & ->)%os_mkdir_ok_inv.
  pose proof (extends_set (fs w) _ Dir Hl) as Hext. split; [exact Hext|].
  unfold is_dir. cbn [fs set_fs].
  change (start (set_fs w _) p) with (start w p).
  rewrite Hp, walk_app, (walk_mono _ _ Hext _ _ _ Hw). cbn [walk].
  rewrite bool_decide_eq_false_2 by exact Hn. now rewrite tree_set_eq.
Qed.

Lemma mkdir_no_parents_post p w w1 :
  mkdir_no_parents true p w = (Ret tt, w1) ->
  cwd w1 = cwd w /\ is_dir w1 p = true.
Proof.
  unfold mkdir_no_parents.
  destruct (os_mkdir w p) as [t|e] eqn:E.
  - intros [= <-]. split; [reflexivity|]. now apply os_mkdir_ok_post.
  - destruct e; try discriminate; cbn [andb];
      destruct (is_dir w p) eqn:Hd; try discriminate; now intros [= <-].
Qed.

(** Making directories takes nothing away, whatever the outcome. *)
Lemma mkdir_no_parents_extends exist_ok p w :
  extends (fs w) (fs (snd (mkdir_no_parents exist_ok p w))).
Proof.
  unfold mkdir_no_parents.
  destruct (os_mkdir w p) as [t|e] eqn:E.
  - cbn. now apply os_mkdir_ok_post in E.
  - destruct e; try destruct (exist_ok && is_dir w p); apply extends_refl.
Qed.

Lemma mkdir_parents_extends r : forall rev_parts exist_ok w,
  extends (fs w) (fs (snd (mkdir_parents exist_ok r rev_parts w))).
Proof.
  induction rev_parts as [|x up IH]; intros exist_ok w;
    rewrite mkdir_parents_unfold; cbn zeta.
  - destruct (os_mkdir w _) as [t|e] eqn:E.
    + cbn. now apply os_mkdir_ok_post in E.
    + destruct e; try destruct (exist_ok && is_dir w _); apply extends_refl.
  - destruct (os_mkdir w _) as [t|e] eqn:E.
    + cbn. now apply os_mkdir_ok_post in E.
    + destruct e; try destruct (exist_ok && is_dir w _); try apply extends_refl.
      unfold bind. specialize (IH true w).
      destruct (mkdir_parents true r up w) as [[[]|e] w1]; cbn [snd] in *;
        [|exact IH].
      eapply extends_trans; [exact IH|]. apply mkdir_no_parents_extends.
Qed.

(** When [mkdir(parents=True, exist_ok=True)] returns, the directory is
    there. *)
Lemma mkdir_parents_post r rev_parts w w1 :
  mkdir_parents true r rev_parts w = (Ret tt, w1) ->
  cwd w1 = cwd w /\ is_dir w1 {| root := r; parts := rev rev_parts |} = true.
Proof.
  rewrite mkdir_parents_unfold. cbn zeta.
  destruct (os_mkdir w _) as [t|e] eqn:E.
  - intros [= <-]. split; [reflexivity|]. now apply os_mkdir_ok_post.
  - destruct e; cbn [andb];
      try (destruct (is_dir w _) eqn:Hd; try discriminate; now intros [= <-]).
    destruct rev_parts as [|x up]; [discriminate|]. unfold bind.
    destruct (mkdir_parents_outcome r up true w) as [[t1 Hw1] _].
    destruct (mkdir_parents true r up w) as [[[]|e] w0]; [|discriminate].
    cbn [snd] in Hw1. intros Hleaf.
    apply mkdir_no_parents_post in Hleaf as [Hc Hd]. split; [|exact Hd].
    rewrite Hc, Hw1. reflexivity.
Qed.

(** X8: whenever [mkdir(parents=True, exist_ok=True)] returns, the path
    is a directory of the tree, and every entry that was in the tree is
    still there, unchanged. *)
Theorem mkdir_ensures_directory (dir : Path) (w w1 : world) :
  Path_mkdir dir true true w = (Ret tt, w1) ->
  is_dir w1 dir = true /\ extends (fs w) (fs w1).
Proof.
  unfold Path_mkdir, bind, emit. intros Hm.
  pose proof (mkdir_parents_extends (root dir) (rev (parts dir)) true
                (add_event (EMkdir dir) w)) as Hext.
  rewrite Hm in Hext. cbn [snd fs add_event] in Hext. split; [|exact Hext].
  apply mkdir_parents_post in Hm as [_ Hd].
  rewrite rev_involutive in Hd. now destruct dir.
Qed.

Lemma mkdir_ensures_directory_witness :
  let w := example_world (str_of "hello") None None in
  let dir := Path_of (str_of "a/b/../c") in
  let w1 := snd (Path_mkdir dir true true w) in
  is_dir w1 dir = true /\ extends (fs w) (fs w1).
Proof.
  intros w dir w1.
  apply (mkdir_ensures_directory dir w w1).
  vm_compute. reflexivity.
Defined.

(** What a successful [open(p, 'wb')] did. *)
Lemma os_open_wb_ok_inv w p f t :
  os_open_wb w p = Ok (f, t) ->
  exists init name d,
    parts p = init ++ [name] /\
    walk (fs w) (start w p) init = Ok d /\
    f = d ++ [name] /\
    fs w f <> Some Dir /\
    t = tree_set (fs w) f (File []).
Proof.
  unfold os_open_wb.
  destruct (unsnoc (parts p)) as [[init name]|] eqn:E; [|discriminate].
  apply unsnoc_inv in E.
  destruct (walk (fs w) (start w p) init) as [d|e] eqn:Hw; [|discriminate].
  destruct (bool_decide (name = DOTDOT)); [discriminate|].
  destruct (fs w (d ++ [name])) as [[|c]|] eqn:Hl; [discriminate|..];
    (destruct (refused w (d ++ [name])); [discriminate|]);
    intros [= <- <-]; exists init, name, d; rewrite Hl; now repeat split.
Qed.


Section Fetcher.
Context `{UnicodeData}.

(** What a run of the fetcher that returns [True] did. *)
Lemma download_audio_true_inv token query output_dir w :
  fst (download_audio token query output_dir w) = Ret true ->
  exists response d,
    net w (audio_request token) = Some response /\
    ok_status response = true /\
    walk (fs (snd (download_audio token query output_dir w)))
      (start w (Path_of output_dir)) (parts (Path_of output_dir)) = Ok d /\
    fs (snd (download_audio token query output_dir w)) (d ++ [filename query])
    = Some (File (content response)).
Proof.
  rewrite download_audio_run. cbn zeta.
  destruct (net w (audio_request token)) as [response|]; [|discriminate].
  destruct (ok_status response) eqn:Hok; [|discriminate].
  rewrite save_audio_run. cbn zeta. rewrite output_path_parent, output_path_eq.
  set (w0 := add_event (EMkdir _) _).
  destruct (mkdir_parents_outcome (root (Path_of output_dir))
              (rev (parts (Path_of output_dir))) true w0) as [[t1 Hw1] _].
  destruct (mkdir_parents true _ _ w0) as [[[]|e] w1] eqn:Hm; [|discriminate].
  cbn [snd] in Hw1.
  destruct (os_open_wb w1 _) as [[f t]|e] eqn:Ho; [|discriminate].
  intros _. exists response.
  apply os_open_wb_ok_inv in Ho
    as (init & name & d & Hp & Hw & -> & Hnd & ->).
  cbn [parts] in Hp. apply app_inj_tail in Hp as [<- <-].
  exists d. split; [reflexivity|]. split; [exact Hok|].
  cbn [snd fs set_fs add_event].
  assert (Hstart : start w1 {| root := root (Path_of output_dir);
                               parts := parts (Path_of output_dir)
                                        ++ [filename query] |}
                   = start w (Path_of output_dir)).
  { rewrite Hw1. reflexivity. }
  rewrite Hstart in Hw. split; [|apply tree_set_eq].
  revert Hw. apply walk_dirs. intros l Hl.
  rewrite !tree_set_ne; [exact Hl| |]; intros ->; contradiction.
Qed.

(** X9: the output path is always the output directory followed by the
    file name as one more segment: the name holds no slash and is none
    of the empty name, [.] and [..], so no query makes the fetcher write
    outside the output directory. *)
Theorem output_path_inside (query output_dir : str) :
  let output_path := Path_div (Path_of output_dir) (filename query) in
  output_path
  = {| root := root (Path_of output_dir);
       parts := parts (Path_of output_dir) ++ [filename query] |} /\
  Path_parent output_path = Path_of output_dir /\
  forallb (fun c => negb (c =? SLASH)) (filename query) = true /\
  filename query <> [] /\ filename query <> DOT /\ filename query <> DOTDOT.
Proof.
  cbn zeta. split; [apply output_path_eq|]. split; [apply output_path_parent|].
  split; [apply filename_no_slash|]. apply filename_is_name.
Qed.

(** A query made to climb out of the output directory does not. *)
Example output_path_climbing :
  Path_div (Path_of (str_of "out")) (@filename latin1 (str_of "../../etc/passwd"))
  = {| root := []; parts := [str_of "out"; str_of "etcpasswd.mp3"] |}.
Proof. reflexivity. Qed.


(** X11: whatever its outcome, [download_audio] removes nothing: a place
    that held a directory still holds a directory, and a place that held
    a file still holds a file. *)
Theorem download_audio_keeps_entries (token query output_dir : str) (w : world)
    (l : loc) (n : node) :
  fs w l = Some n ->
  exists n',
    fs (snd (download_audio token query output_dir w)) l = Some n' /\
    same_kind n n' = true.
Proof.
  intros Hl.
  assert (Hsame : same_kind n n = true) by now destruct n.
  rewrite download_audio_run. cbn zeta.
  destruct (net w (audio_request token)) as [response|]; [|now exists n].
  destruct (ok_status response); [|now exists n].
  rewrite save_audio_run. cbn zeta.
  set (w0 := add_event (EMkdir _) _).
  pose proof (mkdir_parents_extends
                (root (Path_parent (Path_div (Path_of output_dir) (filename query))))
                (rev (parts (Path_parent (Path_div (Path_of output_dir)
                                            (filename query)))))
                true w0) as Hext.
  destruct (mkdir_parents true _ _ w0) as [[[]|e] w1]; cbn [snd] in Hext.
  2:{ exists n. split; [|exact Hsame]. now apply Hext. }
  apply Hext in Hl. change (fs w0) with (fs w) in Hext.
  destruct (os_open_wb w1 _) as [[f t]|e] eqn:Ho.
  2:{ now exists n. }
  apply os_open_wb_ok_inv in Ho as (init & name & d & _ & _ & -> & Hnd & ->).
  cbn [snd fs set_fs add_event].
  destruct (decide (l = d ++ [name])) as [->|Hne].
  - rewrite tree_set_eq. eexists. split; [reflexivity|].
    destruct n; [now rewrite Hl in Hnd|reflexivity].
  - rewrite !tree_set_ne by exact Hne. now exists n.
Qed.

(** X12: when [download_audio] returns [True], the audio request was
    answered with a fine status, the output directory is a directory of
    the tree, and the file with the derived name in it holds the payload
    of the response. *)
Theorem download_audio_true (token query output_dir : str) (w : world) :
  fst (download_audio token query output_dir w) = Ret true ->
  exists response d,
    net w (audio_request token) = Some response /\
    ok_status response = true /\
    walk (fs (snd (download_audio token query output_dir w)))
      (start w (Path_of output_dir)) (parts (Path_of output_dir)) = Ok d /\
    fs (snd (download_audio token query output_dir w)) (d ++ [filename query])
    = Some (File (content response)).
Proof. apply download_audio_true_inv. Qed.

End Fetcher.

Lemma download_audio_keeps_entries_witness :
  exists n',
    fs (snd (@download_audio latin1 TOKEN_EXAMPLE (str_of "notes") (str_of ".")
               (example_world (str_of "hello") None ok_audio)))
      (HOME ++ [str_of "notes"]) = Some n' /\
    same_kind (File [104; 105]) n' = true.
Proof.
  apply (@download_audio_keeps_entries latin1 TOKEN_EXAMPLE (str_of "notes")
           (str_of ".") (example_world (str_of "hello") None ok_audio)
           (HOME ++ [str_of "notes"]) (File [104; 105])).
  vm_compute. reflexivity.
Defined.

Lemma download_audio_true_witness :
  let w := example_world (str_of "hello") None ok_audio in
  let r := @download_audio latin1 TOKEN_EXAMPLE (str_of "notes") (str_of "a/b") w in
  exists response d,
    net w (audio_request TOKEN_EXAMPLE) = Some response /\
    ok_status response = true /\
    walk (fs (snd r)) (start w (Path_of (str_of "a/b")))
      (parts (Path_of (str_of "a/b"))) = Ok d /\
    fs (snd r) (d ++ [@filename latin1 (str_of "notes")])
    = Some (File (content response)).
Proof.
  intros w r.
  apply (@download_audio_true latin1 TOKEN_EXAMPLE (str_of "notes") (str_of "a/b") w).
  vm_compute. reflexivity.
Defined.

(** ** The entry point *)




Section EntryPoint.
Context `{UnicodeData}.





End EntryPoint.


(** ** Blank queries and encoded queries *)

Lemma strip_blank s : forallb Py_UNICODE_ISSPACE s = true -> strip s = [].
Proof.
  intros Hs. unfold strip, lstrip. now rewrite (drop_run_whole _ _ Hs).
Qed.

(** X15: a query that is empty or all whitespace is not rejected: the
    resolver requests the bare dictionary URL, and the derived file name
    is [.mp3]. *)
Theorem blank_query `{UnicodeData} (query : str) (w : world) :
  forallb Py_UNICODE_ISSPACE query = true ->
  filename query = str_of ".mp3" /\
  requests_of (log (snd (get_audio_token query w)))
  = requests_of (log w)
    ++ [{| url := DICTIONARY_URL; timeout := 10; headers := Some HEADERS |}].
Proof.
  intros Hq. pose proof (strip_blank _ Hq) as Hs. split.
  - apply filename_nothing_kept. now rewrite Hs.
  - assert (Hquote : quote (strip query) = Some []) by now rewrite Hs.
    destruct (get_audio_token_frame query w) as (l & Hlog & _ & Hreq & _).
    unfold logged in Hlog. rewrite Hlog. cbn [log].
    rewrite requests_of_app, (Hreq _ Hquote). unfold page_request.
    now rewrite app_nil_r.
Qed.

Lemma blank_query_witness :
  @filename latin1 (str_of "   ") = str_of ".mp3" /\
  requests_of
    (log (snd (@get_audio_token latin1 (str_of "   ")
                 (example_world (str_of "hello") None None))))
  = [] ++ [{| url := DICTIONARY_URL; timeout := 10; headers := Some HEADERS |}].
Proof.
  apply (@blank_query latin1 (str_of "   ")
           (example_world (str_of "hello") None None)).
  vm_compute. reflexivity.
Defined.

(** A character of a percent-encoded text: unreserved, a slash, or the
    percent sign. *)
Definition is_url_char (c : Z) : bool :=
  always_safe c || (c =? SLASH) || (c =? 37).

Definition is_byte (b : Z) : bool := in_range 0 255 b.

Lemma lor_bound a b :
  0 <= a -> 0 <= b -> 0 <= Z.lor a b <= a + b.
Proof.
  intros Ha Hb. pose proof (Z.add_lor_land a b) as E.
  assert (0 <= Z.land a b) by now apply Z.land_nonneg; left.
  assert (0 <= Z.lor a b) by now apply Z.lor_nonneg.
  lia.
Qed.

Lemma land_63 x : 0 <= Z.land x 63 <= 63.
Proof.
  change 63 with (Z.ones 6) at 1 2. rewrite Z.land_ones by lia.
  pose proof (Z.mod_pos_bound x (2 ^ 6) ltac:(lia)). lia.
Qed.

Lemma land_15 x : 0 <= Z.land x 15 <= 15.
Proof.
  change 15 with (Z.ones 4) at 1 2. rewrite Z.land_ones by lia.
  pose proof (Z.mod_pos_bound x (2 ^ 4) ltac:(lia)). lia.
Qed.

Lemma continuation_byte x : is_byte (Z.lor 128 (Z.land x 63)) = true.
Proof.
  pose proof (land_63 x) as Hx.
  pose proof (lor_bound 128 (Z.land x 63) ltac:(lia) ltac:(lia)).
  unfold is_byte, in_range. lia.
Qed.

Lemma leading_byte m x n :
  0 <= m -> 0 <= x -> Z.shiftr x n <= 255 - m -> 0 <= n ->
  is_byte (Z.lor m (Z.shiftr x n)) = true.
Proof.
  intros Hm Hx Hs Hn.
  assert (0 <= Z.shiftr x n) by now apply Z.shiftr_nonneg.
  pose proof (lor_bound m (Z.shiftr x n) Hm ltac:(lia)).
  unfold is_byte, in_range. lia.
Qed.

Lemma shiftr_below x n k :
  0 <= x -> 0 <= n -> x < 2 ^ n * k -> Z.shiftr x n < k.
Proof.
  intros Hx Hn Hk. rewrite Z.shiftr_div_pow2 by exact Hn.
  apply Z.div_lt_upper_bound; [|exact Hk]. now apply Z.pow_pos_nonneg.
Qed.

(** UTF-8 encodes into bytes. *)
Lemma utf8_encode_char_bytes c bs :
  utf8_encode_char c = Some bs -> forallb is_byte bs = true.
Proof.
  unfold utf8_encode_char.
  destruct (c <? 0) eqn:E0; [discriminate|]. apply Z.ltb_ge in E0.
  destruct (c <? 128) eqn:E1.
  { intros [= <-]. apply Z.ltb_lt in E1. cbn. unfold is_byte, in_range. lia. }
  destruct (c <? 2048) eqn:E2.
  { intros [= <-]. apply Z.ltb_lt in E2. cbn [forallb].
    rewrite continuation_byte, leading_byte; try lia; try reflexivity.
    pose proof (shiftr_below c 6 32 ltac:(lia) ltac:(lia) ltac:(lia)). lia. }
  destruct (c <? 65536) eqn:E3.
  { destruct (in_range 55296 57343 c); [discriminate|].
    intros [= <-]. apply Z.ltb_lt in E3. cbn [forallb].
    rewrite !continuation_byte, leading_byte; try lia; try reflexivity.
    pose proof (shiftr_below c 12 16 ltac:(lia) ltac:(lia) ltac:(lia)). lia. }
  destruct (c <? 1114112) eqn:E4; [|discriminate].
  intros [= <-]. apply Z.ltb_lt in E4. cbn [forallb].
  rewrite !continuation_byte, leading_byte; try lia; try reflexivity.
  pose proof (shiftr_below c 18 8 ltac:(lia) ltac:(lia) ltac:(lia)). lia.
Qed.

Lemma utf8_encode_bytes s : forall bs,
  utf8_encode s = Some bs -> forallb is_byte bs = true.
Proof.
  induction s as [|c s IH]; intros bs; [now intros [= <-]|].
  cbn [utf8_encode].
  destruct (utf8_encode_char c) as [b|] eqn:Hc; [|discriminate].
  destruct (utf8_encode s) as [bs'|]; [|discriminate].
  intros [= <-]. rewrite forallb_app, (utf8_encode_char_bytes _ _ Hc).
  now rewrite (IH bs').
Qed.

Lemma hex_digit_safe n : 0 <= n <= 15 -> always_safe (hex_digit n) = true.
Proof.
  intros Hn. unfold hex_digit, always_safe, ascii_alnum, is_upper, is_lower,
    is_digit, in_range.
  destruct (n <? 10) eqn:E; [apply Z.ltb_lt in E|apply Z.ltb_ge in E]; lia.
Qed.

Lemma quote_byte_url b :
  is_byte b = true -> forallb is_url_char (quote_byte b) = true.
Proof.
  intros Hb. unfold quote_byte.
  destruct (always_safe b || (b =? SLASH)) eqn:E.
  - cbn [forallb]. unfold is_url_char. rewrite E. reflexivity.
  - cbn [forallb]. unfold is_url_char at 1. cbn [orb].
    unfold is_url_char.
    unfold is_byte, in_range in Hb.
    rewrite !hex_digit_safe; [reflexivity|apply land_15|].
    assert (0 <= Z.shiftr b 4) by (apply Z.shiftr_nonneg; lia).
    pose proof (shiftr_below b 4 16 ltac:(lia) ltac:(lia) ltac:(lia)). lia.
Qed.

Lemma quote_url s e : quote s = Some e -> forallb is_url_char e = true.
Proof.
  unfold quote. destruct (utf8_encode s) as [bs|] eqn:Hu; [|discriminate].
  intros [= <-]. apply utf8_encode_bytes in Hu.
  induction bs as [|b bs IH]; [reflexivity|].
  cbn [forallb] in Hu. apply andb_true_iff in Hu as [Hb Hbs].
  cbn [List.map concat]. rewrite forallb_app, (quote_byte_url _ Hb). now apply IH.
Qed.

(** X16: every request of the resolver has the dictionary base URL
    followed by a text of unreserved characters ([A-Za-z0-9_.-~]),
    slashes and percent signs only: whatever the query, nothing else
    reaches the URL. *)
Theorem page_url_is_encoded `{UnicodeData} (query : str) (w : world) (r : request) :
  In r (requests_of (log (snd (get_audio_token query w)))) ->
  In r (requests_of (log w)) \/
  exists e,
    url r = DICTIONARY_URL ++ e /\ forallb is_url_char e = true.
Proof.
  destruct (get_audio_token_frame query w) as (l & Hlog & _ & Hreq & Hnone).
  unfold logged in Hlog. rewrite Hlog. cbn [log]. rewrite requests_of_app.
  intros [Hr|Hr]%in_app_iff; [now left|]. right.
  destruct (quote (strip query)) as [e|] eqn:Hq.
  - rewrite (Hreq e eq_refl) in Hr. destruct Hr as [<-|[]].
    exists e. split; [reflexivity|]. exact (quote_url _ _ Hq).
  - rewrite (Hnone eq_refl) in Hr. destruct Hr.
Qed.

Lemma page_url_is_encoded_witness :
  let w := example_world (str_of "hello") None None in
  let query := [99; 97; 102; 233] ++ str_of " & mon ami?" in
  let r := {| url := DICTIONARY_URL ++ str_of "caf%C3%A9%20%26%20mon%20ami%3F";
              timeout := 10; headers := Some HEADERS |} in
  In r (requests_of (log w)) \/
  exists e, url r = DICTIONARY_URL ++ e /\ forallb is_url_char e = true.
Proof.
  intros w query r.
  apply (@page_url_is_encoded latin1 query w r).
  vm_compute. left. reflexivity.
Defined.
